(** * Priscilla message broker: dispatcher, connection loop and start-up

    A shallow embedding of [priscilla.go] (functions [main], [serve],
    [initialize]) and of the dispatcher source ([generateId],
    [dispatcher]), followed by the properties the specification states
    about them.

    Conventions of the embedding.
    - Go strings are [string]; [map[string]*json.Encoder] is a
      [gmap string encoder]; [container/list] values are Rocq lists and
      [PushBack] appends at the end.
    - Pointers that the code tests or that a client may omit
      ([Command], [Message], [Encoder], [EngageResp], [Responders]) are
      [option]s; dereferencing [None] is a panic.  A request and its
      [Query] are never nil in the requests the sources build and are
      plain values.
    - Every observable effect (log line, write on a socket encoder, send
      on a channel, spawned goroutine) is appended to a trace in program
      order. *)

From Stdlib Require Import Strings.Byte Strings.Ascii.
From stdpp Require Import gmap strings list fin_maps.

(** ** Wire data *)

(** Modelled from the spec: the [messageBlock] struct is declared in a
    file that is not part of the sources; the specification gives a
    message as free-form chat text plus its originating room. *)
Record messageBlock := MessageBlock {
  msg_Text : string;
  msg_Room : string
}.

(** Modelled from the spec: the [commandBlock] struct is declared in a
    file that is not part of the sources; the fields are the ones the
    specification lists ([action], [id], [type], [data], [array],
    [options]) and the dispatcher reads. *)
Record commandBlock := CommandBlock {
  cmd_Id : string;
  cmd_Action : string;
  cmd_Type : string;
  cmd_Data : string;
  cmd_Array : list string;
  cmd_Options : list string
}.

(** Modelled from the spec: the [query] struct (the envelope) is declared
    in a file that is not part of the sources; [Command] and [Message]
    are pointers and may be nil. *)
Record query := MkQuery {
  q_Type : string;
  q_Source : string;
  q_To : string;
  q_Command : option commandBlock;
  q_Message : option messageBlock
}.

(** A [*json.Encoder] is identified by the connection it writes to, and a
    channel by a number. *)
Definition encoder := nat.
Definition chan := nat.

Record dispatcherRequest := DispatcherRequest {
  Query : query;
  Encoder : option encoder;
  EngageResp : option chan
}.

(** ** Registries (package-level variables of [priscilla.go]) *)

(** A compiled [*regexp.Regexp] is identified by its source pattern. *)
Record Regexp := CompiledRegexp { re_source : string }.

Record passiveResponderConfig := PassiveResponderConfig {
  pr_Name : string;
  pr_Match : list string;
  pr_MentionMatch : list string;
  pr_NoPrefix : bool;
  pr_FallThrough : bool;
  pr_Cmd : string;
  pr_Args : list string;
  pr_Help : string;
  pr_HelpCmds : list string;
  pr_HelpMentionCmds : list string;
  pr_regex : list Regexp;
  pr_mRegex : list Regexp;
  pr_substitute : gmap nat bool;
  pr_roomParam : gmap nat bool
}.

Record responderConfig := ResponderConfig {
  Passive : list passiveResponderConfig
}.

Record config := Config {
  conf_Help : string;
  conf_Secret : string;
  conf_Responders : option responderConfig;
  conf_helpRegex : option Regexp
}.

Record activeResponderConfig := ActiveResponderConfig {
  ar_regex : Regexp;
  ar_source : string;
  ar_id : string;
  ar_matchNext : bool;
  ar_helpCmd : string;
  ar_help : string
}.

Record helpInfo := HelpInfo {
  hi_helpCmd : string;
  hi_helpMsg : string;
  hi_noPrefix : bool;
  hi_mention : bool
}.

(** [unhandledPResponders] is declared but [main] never assigns it and
    nothing pushes to it; it is kept here so that the four passive
    buckets can be spoken about. *)
Record globals := Globals {
  conf : config;
  prefixPResponders : list passiveResponderConfig;
  noPrefixPResponders : list passiveResponderConfig;
  mentionPResponders : list passiveResponderConfig;
  unhandledPResponders : list passiveResponderConfig;
  prefixAResponders : list activeResponderConfig;
  noPrefixAResponders : list activeResponderConfig;
  mentionAResponders : list activeResponderConfig;
  unhandledAResponders : list activeResponderConfig;
  help : list helpInfo
}.

(** ** Effects *)

Inductive level := Debug | Info | Warn | Error.

Inductive event :=
  | Log (l : level) (text : string)
  | Encode (e : encoder) (q : query)
  | ChanSend (c : chan) (v : string)
  | ChanClose (c : chan)
  | GoHandleCommand (cmd : commandBlock) (source : string)
  | GoHandleMessage (m : messageBlock) (source : string)
  | QuitSend.

(** Ways in which a goroutine stops making progress: [logger.Error.Fatal]
    (process exit), a run-time panic, or a send on a nil channel, which
    in Go blocks forever. *)
Inductive halt := Fatal | Panic | Blocked.

(** The dispatcher's world: the globals, its local [connMap], the number
    of reads made so far from [rand.Reader], and the trace. *)
Record world := World {
  g : globals;
  connMap : gmap string encoder;
  reads : nat;
  trace : list event
}.

(** ** [generateId] *)

Definition hexDigit (n : N) : ascii :=
  if (n <? 10)%N then ascii_of_N (48 + n) else ascii_of_N (87 + n).

(** [%x] on a byte: two lowercase hexadecimal digits. *)
Definition hexByte (b : byte) : list ascii :=
  [hexDigit (Byte.to_N b / 16); hexDigit (Byte.to_N b mod 16)].

(** [fmt.Sprintf("%x", b)] for a byte slice. *)
Definition sprintf_x (bs : list byte) : string :=
  String.string_of_list_ascii (concat (map hexByte bs)).

(** [io.ReadFull(r, b)] on a fresh zeroed buffer of [n] bytes, when the
    reader delivers [delivered]: the bytes read come first, what was not
    read stays zero.  The error is dropped by the caller. *)
Definition readFull (n : nat) (delivered : list byte) : list byte :=
  take n (delivered ++ replicate n x00%byte).

(** [generateId], as a function of what [rand.Reader] delivers. *)
Definition generateId (delivered : list byte) : string :=
  sprintf_x (readFull 8 delivered).

Definition isLowerHex (a : ascii) : bool :=
  let n := N_of_ascii a in
  ((48 <=? n) && (n <=? 57) || (97 <=? n) && (n <=? 102))%N.

(** ** Collaborators

    Methods of [query] and [commandBlock] that the sources call but whose
    bodies are declared elsewhere ([validate], [engageChk], [registerChk],
    [checkEngagement]), and the two library services the code depends on
    ([regexp.Compile], [rand.Reader]).  Nothing is assumed about them: an
    error result is [Some err], success is [None].  [randReader n] is
    what the [n]-th read from [rand.Reader] delivers. *)
Record collaborators := Collaborators {
  validate : query → option string;
  engageChk : commandBlock → string → string → option string;
  registerChk : commandBlock → option string;
  checkEngagement : query → option string;
  regexpError : string → option string;
  randReader : nat → list byte
}.

(** [regexp.Compile]. *)
Definition regexp_Compile (env : collaborators) (pattern : string)
  : Regexp + string :=
  match regexpError env pattern with
  | None => inl (CompiledRegexp pattern)
  | Some err => inr err
  end.

(** ** A small monad for the dispatcher goroutine

    A computation either returns a value and a new world, stops the
    goroutine for good, or runs out of fuel (it is still looping). *)
Inductive outcome (A : Type) :=
  | Ok (a : A) (w : world)
  | Halted (h : halt) (w : world)
  | OutOfFuel.
Arguments Ok {A} a w.
Arguments Halted {A} h w.
Arguments OutOfFuel {A}.

Definition M (A : Type) := world → outcome A.

Definition ret {A} (a : A) : M A := fun w => Ok a w.

Definition bind {A B} (m : M A) (k : A → M B) : M B :=
  fun w => match m w with
           | Ok a w' => k a w'
           | Halted h w' => Halted h w'
           | OutOfFuel => OutOfFuel
           end.

Declare Scope disp_scope.
Delimit Scope disp_scope with disp.
Notation "x <- m ;; k" := (bind m (fun x => k))
  (at level 100, m at next level, right associativity) : disp_scope.
Notation "m ;; k" := (bind m (fun _ => k))
  (at level 100, right associativity) : disp_scope.

Definition stop {A} (h : halt) : M A := fun w => Halted h w.

Definition emit (ev : event) : M unit :=
  fun w => Ok tt (World (g w) (connMap w) (reads w) (trace w ++ [ev])).

Definition log (l : level) (text : string) : M unit := emit (Log l text).

(** Dereference of a pointer. *)
Definition deref {A} (p : option A) : M A :=
  match p with
  | Some a => ret a
  | None => stop Panic
  end.

(** [s[i]] on a slice: panics out of range. *)
Definition index (s : list string) (i : nat) : M string :=
  match s !! i with
  | Some x => ret x
  | None => stop Panic
  end.

Definition getConnMap : M (gmap string encoder) := fun w => Ok (connMap w) w.

Definition putConnMap (m : gmap string encoder) : M unit :=
  fun w => Ok tt (World (g w) m (reads w) (trace w)).

Definition getGlobals : M globals := fun w => Ok (g w) w.

Definition putGlobals (gl : globals) : M unit :=
  fun w => Ok tt (World gl (connMap w) (reads w) (trace w)).

(** [ch <- v]: a send on a nil channel blocks forever. *)
Definition chanSend (ch : option chan) (v : string) : M unit :=
  match ch with
  | Some c => emit (ChanSend c v)
  | None => stop Blocked
  end.

(** [close(ch)]: closing a nil channel panics. *)
Definition chanClose (ch : option chan) : M unit :=
  match ch with
  | Some c => emit (ChanClose c)
  | None => stop Panic
  end.

(** [help.PushBack] and the four [PushBack]s on the active buckets. *)
Definition pushHelp (h : helpInfo) (gl : globals) : globals :=
  Globals (conf gl) (prefixPResponders gl) (noPrefixPResponders gl)
    (mentionPResponders gl) (unhandledPResponders gl)
    (prefixAResponders gl) (noPrefixAResponders gl)
    (mentionAResponders gl) (unhandledAResponders gl) (help gl ++ [h]).

Definition pushPrefixA (ar : activeResponderConfig) (gl : globals) : globals :=
  Globals (conf gl) (prefixPResponders gl) (noPrefixPResponders gl)
    (mentionPResponders gl) (unhandledPResponders gl)
    (prefixAResponders gl ++ [ar]) (noPrefixAResponders gl)
    (mentionAResponders gl) (unhandledAResponders gl) (help gl).

Definition pushNoPrefixA (ar : activeResponderConfig) (gl : globals) : globals :=
  Globals (conf gl) (prefixPResponders gl) (noPrefixPResponders gl)
    (mentionPResponders gl) (unhandledPResponders gl)
    (prefixAResponders gl) (noPrefixAResponders gl ++ [ar])
    (mentionAResponders gl) (unhandledAResponders gl) (help gl).

Definition pushMentionA (ar : activeResponderConfig) (gl : globals) : globals :=
  Globals (conf gl) (prefixPResponders gl) (noPrefixPResponders gl)
    (mentionPResponders gl) (unhandledPResponders gl)
    (prefixAResponders gl) (noPrefixAResponders gl)
    (mentionAResponders gl ++ [ar]) (unhandledAResponders gl) (help gl).

Definition pushUnhandledA (ar : activeResponderConfig) (gl : globals) : globals :=
  Globals (conf gl) (prefixPResponders gl) (noPrefixPResponders gl)
    (mentionPResponders gl) (unhandledPResponders gl)
    (prefixAResponders gl) (noPrefixAResponders gl)
    (mentionAResponders gl) (unhandledAResponders gl ++ [ar]) (help gl).

Definition modifyGlobals (f : globals → globals) : M unit :=
  fun w => Ok tt (World (f (g w)) (connMap w) (reads w) (trace w)).

(** The two replies the dispatcher writes during engagement. *)
Definition proceedQuery (id : string) : query :=
  MkQuery "command" "server" id
    (Some (CommandBlock "" "proceed" "" id [] [])) None.

Definition terminateQuery (to reason : string) : query :=
  MkQuery "command" "server" to
    (Some (CommandBlock "" "terminate" "" reason [] [])) None.

(** The loop over [cmd.Options] that sets [ar.matchNext]. *)
Definition matchNextOf (options : list string) : bool :=
  fold_left (fun acc option =>
               if decide (option = "fallthrough") then true else acc)
            options false.

(** How one pass through the body of a [for] loop ends. *)
Inductive ctl := Continue | Break.

Section Dispatcher.

Variable env : collaborators.

Local Open Scope disp_scope.

(** One call of [generateId()]: consumes the next read of [rand.Reader]. *)
Definition callGenerateId : M string :=
  fun w => Ok (generateId (randReader env (reads w)))
              (World (g w) (connMap w) (S (reads w)) (trace w)).

(** [for _, ok := connMap[id]; ok; _, ok = connMap[id] { id = generateId() }].
    The loop has no bound of its own; [fuel] bounds the number of
    regenerations that are followed. *)
Fixpoint collisionLoop (fuel : nat) (id : string) : M string :=
  fun w =>
    match connMap w !! id with
    | None => Ok id w
    | Some _ =>
        match fuel with
        | O => OutOfFuel
        | S fuel' => (id' <- callGenerateId ;; collisionLoop fuel' id') w
        end
    end.

(** [case "engage"]. *)
Definition engage (fuel : nat) (req : dispatcherRequest) (q : query)
    (cmd : commandBlock) : M ctl :=
  match Encoder req with
  | None =>
      log Error "No connection provided for engagement" ;;
      log Error "Bad code, check code ininitialize()" ;;
      stop Fatal
  | Some enc =>
      gl <- getGlobals ;;
      match engageChk env cmd (q_Source q) (conf_Secret (conf gl)) with
      | None =>
          id <- (if decide (q_Source q = "") then callGenerateId
                 else ret (q_Source q)) ;;
          id <- collisionLoop fuel id ;;
          m <- getConnMap ;;
          putConnMap (<[id := enc]> m) ;;
          (if decide (id ≠ q_Source q ∧ q_Source q ≠ "")
           then log Warn "Requester's source id already"
           else ret tt) ;;
          log Info "Engagement accepted: " ;;
          chanSend (EngageResp req) id ;;
          chanClose (EngageResp req) ;;
          emit (Encode enc (proceedQuery id)) ;;
          ret Continue
      | Some err =>
          log Error "Invalid engagement request" ;;
          chanSend (EngageResp req) "" ;;
          chanClose (EngageResp req) ;;
          emit (Encode enc (terminateQuery (q_Source q) err)) ;;
          ret Continue
      end
  end.

(** [case "disengage"]. *)
Definition disengage (q : query) : M ctl :=
  (if decide (q_Source q ≠ "")
   then m <- getConnMap ;; putConnMap (delete (q_Source q) m)
   else ret tt) ;;
  log Info "Connection disengaged: " ;;
  ret Continue.

(** [case "register"]. *)
Definition register (q : query) (cmd : commandBlock) : M ctl :=
  log Debug "Register command received:" ;;
  match registerChk env cmd with
  | None =>
      match regexp_Compile env (cmd_Data cmd) with
      | inr _ =>
          log Error "Error compiling regex:" ;;
          ret Continue
      | inl re =>
          helpCmd <- index (cmd_Array cmd) 0 ;;
          helpText <- index (cmd_Array cmd) 1 ;;
          let ar := ActiveResponderConfig re (q_Source q) (cmd_Id cmd)
                      (matchNextOf (cmd_Options cmd)) helpCmd helpText in
          (if decide (cmd_Type cmd = "prefix") then
             modifyGlobals (pushHelp (HelpInfo helpCmd helpText false false)) ;;
             modifyGlobals (pushPrefixA ar)
           else if decide (cmd_Type cmd = "noprefix") then
             modifyGlobals (pushHelp (HelpInfo helpCmd helpText true false)) ;;
             modifyGlobals (pushNoPrefixA ar)
           else if decide (cmd_Type cmd = "mention") then
             modifyGlobals (pushHelp (HelpInfo helpCmd helpText false true)) ;;
             modifyGlobals (pushMentionA ar)
           else if decide (cmd_Type cmd = "unhandled") then
             modifyGlobals (pushUnhandledA ar)
           else ret tt) ;;
          log Debug "Active adapter registered:" ;;
          ret Continue
      end
  | Some _ =>
      log Error "Invalid register command:" ;;
      ret Continue
  end.

(** [case q.Type == "message"]. *)
Definition routeMessage (q : query) : M ctl :=
  if decide (q_To q ≠ "" ∧ q_To q ≠ "server") then
    _ <- deref (q_Message q) ;;
    log Debug "Responder message received:" ;;
    log Debug "Query source:" ;;
    m <- getConnMap ;;
    match m !! q_To q with
    | Some enc => emit (Encode enc q) ;; ret Continue
    | None => log Error "Cannot find adapter source for" ;; ret Continue
    end
  else
    msg <- deref (q_Message q) ;;
    log Debug "Adapter message received:" ;;
    emit (GoHandleMessage msg (q_Source q)) ;;
    ret Continue.

(** The body of the dispatcher's [for] loop, for the request just
    received. *)
Definition dispatch (fuel : nat) (req : dispatcherRequest) : M ctl :=
  let q := Query req in
  match validate env q with
  | Some _ =>
      log Error "Query failed to validate:" ;;
      log Info "Invalid query received:" ;;
      ret Continue
  | None =>
      if decide (q_Type q = "command") then
        cmd <- deref (q_Command q) ;;
        if decide (cmd_Action cmd = "engage") then engage fuel req q cmd
        else if decide (cmd_Action cmd = "disengage") then disengage q
        else if decide (cmd_Action cmd = "register") then register q cmd
        else emit (GoHandleCommand cmd (q_Source q)) ;; ret Continue
      else if decide (q_Type q = "message") then routeMessage q
      else
        log Error "Unhandlabe message, bad client code" ;;
        ret Continue
  end.

(** How a run of the dispatcher goroutine over the requests that arrive
    on its channel ends: waiting in [<-request] for the next one, or
    past the loop, having executed [quitChan <- true]. *)
Inductive dispatcherEnd := AwaitingRequest | Returned.

(** [dispatcher]: [connMap] starts empty, then the loop; the statement
    after the loop sends on [quitChan]. *)
Fixpoint dispatcherLoop (fuel : nat) (requests : list dispatcherRequest)
  : M dispatcherEnd :=
  match requests with
  | [] => ret AwaitingRequest
  | req :: rest =>
      c <- dispatch fuel req ;;
      match c with
      | Continue => dispatcherLoop fuel rest
      | Break => emit QuitSend ;; ret Returned
      end
  end.

Definition dispatcher (fuel : nat) (requests : list dispatcherRequest)
  : M dispatcherEnd :=
  putConnMap ∅ ;; dispatcherLoop fuel requests.

End Dispatcher.

(** ** The connection loop: [serve] and [initialize] *)

Inductive serveEvent :=
  | SLog (l : level) (text : string)
  | Submit (req : dispatcherRequest)
  | ConnClose.

(** What [decoder.Decode] returns on one iteration. *)
Inductive decoded := DecodeEOF | DecodeError | Decoded (q : query).

(** The loop variables [id] and [isAdapter]. *)
Record connState := ConnState {
  sv_id : string;
  sv_isAdapter : bool
}.

Inductive serveStep :=
  | ServeStep (evs : list serveEvent) (c : ctl) (st : connState)
  | ServePanic (evs : list serveEvent).

Definition setSource (q : query) (source : string) : query :=
  MkQuery (q_Type q) source (q_To q) (q_Command q) (q_Message q).

Definition setTo (q : query) (to : string) : query :=
  MkQuery (q_Type q) (q_Source q) to (q_Command q) (q_Message q).

Definition disengageQuery (id : string) : query :=
  MkQuery "command" id ""
    (Some (CommandBlock "" "disengage" "" "" [] [])) None.

(** [q.Type != "command" || q.Command.Action != "info"]; [None] is the
    nil dereference. *)
Definition notInfoCommand (q : query) : option bool :=
  if decide (q_Type q ≠ "command") then Some true
  else cmd ← q_Command q; Some (bool_decide (cmd_Action cmd ≠ "info")).

(** [q.Type == "command" && q.Command.Action == "register"]. *)
Definition isRegisterCommand (q : query) : option bool :=
  if decide (q_Type q = "command")
  then cmd ← q_Command q; Some (bool_decide (cmd_Action cmd = "register"))
  else Some false.

Section Serve.

Variable env : collaborators.

(** [initialize]: [reply] is what the dispatcher sends on the fresh
    channel [resp]. *)
Definition initialize (q : query) (enc : encoder) (resp : chan)
    (reply : string) : list serveEvent * (string + string) :=
  match checkEngagement env q with
  | Some err => ([], inr err)
  | None =>
      let sent := [Submit (DispatcherRequest q (Some enc) (Some resp))] in
      if decide (reply = "")
      then (sent, inr "Error occured during engagement")
      else (sent ++ [SLog Debug "Connection successfully engaged"], inl reply)
  end.

(** The branch of [serve] taken once the connection has an id. *)
Definition forward (enc : encoder) (st : connState) (q : query)
  : serveStep :=
  match validate env q with
  | Some _ => ServeStep [SLog Error "Failed to validate query:"] Continue st
  | None =>
      let q := setSource q (sv_id st) in
      let submit q :=
        ServeStep [Submit (DispatcherRequest q (Some enc) None)] Continue st in
      if sv_isAdapter st then
        match notInfoCommand q with
        | None => ServePanic []
        | Some clear =>
            let q := if clear then setTo q "" else q in
            match isRegisterCommand q with
            | None => ServePanic []
            | Some true =>
                ServeStep [SLog Error "Adapter cannot register commands"]
                          Continue st
            | Some false => submit q
            end
        end
      else if decide (q_To q = "") then
        ServeStep [SLog Error "Responder query missing 'to' field"] Continue st
      else if decide (q_Type q = "message" ∧ q_To q = "server") then
        ServeStep [SLog Error "Responder message cannot target 'server'"]
                  Continue st
      else submit q
  end.

(** The body of the [for] loop of [serve]. *)
Definition serveBody (enc : encoder) (resp : chan) (reply : string)
    (st : connState) (d : decoded) : serveStep :=
  match d with
  | DecodeEOF =>
      ServeStep [SLog Error "EOF";
                 Submit (DispatcherRequest (disengageQuery (sv_id st)) None None)]
                Break st
  | DecodeError => ServeStep [SLog Error "decode error"] Continue st
  | Decoded q =>
      if decide (sv_id st = "") then
        match initialize q enc resp reply with
        | (evs, inr _) =>
            ServeStep (evs ++ [SLog Error "Failed to engage:"; ConnClose])
                      Break st
        | (evs, inl id) =>
            match q_Command q with
            | None => ServePanic evs
            | Some cmd =>
                ServeStep evs Continue
                  (ConnState id
                     (if decide (cmd_Type cmd = "adapter") then true
                      else sv_isAdapter st))
            end
        end
      else forward enc st q
  end.

(** [serve] over the successive results of [decoder.Decode], starting
    from [id = ""] and [isAdapter = false]. *)
Fixpoint serveLoop (enc : encoder) (resp : chan) (reply : string)
    (st : connState) (input : list decoded)
  : list serveEvent * option connState :=
  match input with
  | [] => ([], Some st)
  | d :: rest =>
      match serveBody enc resp reply st d with
      | ServePanic evs => (evs, None)
      | ServeStep evs Break st' => (evs, Some st')
      | ServeStep evs Continue st' =>
          let '(evs', final) := serveLoop enc resp reply st' rest in
          (evs ++ evs', final)
      end
  end.

Definition serve (enc : encoder) (resp : chan) (reply : string)
    (input : list decoded) : list serveEvent * option connState :=
  serveLoop enc resp reply (ConnState "" false) input.

End Serve.

(** ** Start-up: the configuration phase of [main] *)

Definition isDigit (a : ascii) : bool :=
  let n := N_of_ascii a in ((48 <=? n) && (n <=? 57))%N.

(** Does [s] begin with a match of [__([[:digit:]])__]? *)
Definition startsWithSubMarker (s : string) : bool :=
  match s with
  | String "_" (String "_" (String d (String "_" (String "_" _)))) => isDigit d
  | _ => false
  end.

(** [subRegex.MatchString(arg)]: some position of [arg] starts a match. *)
Fixpoint subRegex_MatchString (arg : string) : bool :=
  startsWithSubMarker arg ||
  match arg with
  | EmptyString => false
  | String _ rest => subRegex_MatchString rest
  end.

(** [roomRegex.MatchString(arg)] for the pattern [(__room__)]. *)
Fixpoint roomRegex_MatchString (arg : string) : bool :=
  String.prefix "__room__" arg ||
  match arg with
  | EmptyString => false
  | String _ rest => roomRegex_MatchString rest
  end.

Definition setCompiled (pr : passiveResponderConfig)
    (regex mRegex : list Regexp) (substitute roomParam : gmap nat bool)
  : passiveResponderConfig :=
  PassiveResponderConfig (pr_Name pr) (pr_Match pr) (pr_MentionMatch pr)
    (pr_NoPrefix pr) (pr_FallThrough pr) (pr_Cmd pr) (pr_Args pr)
    (pr_Help pr) (pr_HelpCmds pr) (pr_HelpMentionCmds pr)
    regex mRegex substitute roomParam.

Definition pushPrefixP (pr : passiveResponderConfig) (gl : globals) : globals :=
  Globals (conf gl) (prefixPResponders gl ++ [pr]) (noPrefixPResponders gl)
    (mentionPResponders gl) (unhandledPResponders gl)
    (prefixAResponders gl) (noPrefixAResponders gl)
    (mentionAResponders gl) (unhandledAResponders gl) (help gl).

Definition pushNoPrefixP (pr : passiveResponderConfig) (gl : globals) : globals :=
  Globals (conf gl) (prefixPResponders gl) (noPrefixPResponders gl ++ [pr])
    (mentionPResponders gl) (unhandledPResponders gl)
    (prefixAResponders gl) (noPrefixAResponders gl)
    (mentionAResponders gl) (unhandledAResponders gl) (help gl).

Definition pushMentionP (pr : passiveResponderConfig) (gl : globals) : globals :=
  Globals (conf gl) (prefixPResponders gl) (noPrefixPResponders gl)
    (mentionPResponders gl ++ [pr]) (unhandledPResponders gl)
    (prefixAResponders gl) (noPrefixAResponders gl)
    (mentionAResponders gl) (unhandledAResponders gl) (help gl).

(** The [list.New()] assignments of [main] around the given [conf]. *)
Definition freshGlobals (c : config) : globals :=
  Globals c [] [] [] [] [] [] [] [] [].

Definition setHelp (c : config) (h : string) : config :=
  Config h (conf_Secret c) (conf_Responders c) (conf_helpRegex c).

Definition setHelpRegex (c : config) (re : option Regexp) : config :=
  Config (conf_Help c) (conf_Secret c) (conf_Responders c) re.

Section Startup.

Variable env : collaborators.

Local Open Scope disp_scope.

(** [logger.Error.Fatal]: the line is logged and the process exits. *)
Definition fatal {A} (text : string) : M A :=
  log Error text ;; stop Fatal.

(** The loops that compile [pr.Match] and [pr.MentionMatch]. *)
Fixpoint compilePatterns (patterns : list string) (acc : list Regexp)
  : M (list Regexp) :=
  match patterns with
  | [] => ret acc
  | pattern :: rest =>
      match regexp_Compile env pattern with
      | inr _ => fatal "Unable to parse expression:"
      | inl rg => compilePatterns rest (acc ++ [rg])
      end
  end.

(** The loop over [pr.Args] filling [substitute] and [roomParam]. *)
Fixpoint scanArgs (i : nat) (args : list string)
    (substitute roomParam : gmap nat bool)
  : M (gmap nat bool * gmap nat bool) :=
  match args with
  | [] => ret (substitute, roomParam)
  | arg :: rest =>
      substitute' <-
        (if subRegex_MatchString arg
         then log Debug "Substitution found:" ;; ret (<[i := true]> substitute)
         else ret substitute) ;;
      roomParam' <-
        (if roomRegex_MatchString arg
         then log Debug "Room substitution found:" ;;
              ret (<[i := true]> roomParam)
         else ret roomParam) ;;
      scanArgs (S i) rest substitute' roomParam'
  end.

(** The loops that turn help commands into [helpInfo] entries. *)
Fixpoint pushHelpCmds (cmds : list string) (msg : string)
    (noPrefix mention : bool) : M unit :=
  match cmds with
  | [] => ret tt
  | cmd :: rest =>
      modifyGlobals (pushHelp (HelpInfo cmd msg noPrefix mention)) ;;
      pushHelpCmds rest msg noPrefix mention
  end.

(** The body of [for _, pr := range conf.Responders.Passive]. *)
Definition compilePassive (pr : passiveResponderConfig) : M unit :=
  log Debug "Passive responder:" ;;
  (if decide (length (pr_Match pr) = 0)
   then fatal "Must specify at least one match for passive responder"
   else ret tt) ;;
  regex <- compilePatterns (pr_Match pr) [] ;;
  mRegex <- compilePatterns (pr_MentionMatch pr) [] ;;
  (if decide (length regex = 0)
   then fatal "Missing match or multimatch:"
   else ret tt) ;;
  (if decide (pr_Cmd pr = "")
   then fatal "Passive Responder must have 'cmd' paramenter"
   else ret tt) ;;
  maps <- scanArgs 0 (pr_Args pr) ∅ ∅ ;;
  let pr := setCompiled pr regex mRegex maps.1 maps.2 in
  (if pr_NoPrefix pr
   then log Debug "Registered NoPrefix responder:" ;;
        modifyGlobals (pushNoPrefixP pr)
   else log Debug "Registered Prefix responder:" ;;
        modifyGlobals (pushPrefixP pr)) ;;
  (if decide (length (pr_mRegex pr) ≠ 0)
   then log Debug "Registered Mention responder:" ;;
        modifyGlobals (pushMentionP pr)
   else ret tt) ;;
  (if decide (pr_Help pr = "" ∨ length (pr_HelpCmds pr) = 0)
   then fatal "Missing help or help-commands for passive responder: "
   else ret tt) ;;
  pushHelpCmds (pr_HelpCmds pr) (pr_Help pr) (pr_NoPrefix pr) false ;;
  pushHelpCmds (pr_HelpMentionCmds pr) (pr_Help pr) false true.

Fixpoint compilePassives (prs : list passiveResponderConfig) : M unit :=
  match prs with
  | [] => ret tt
  | pr :: rest => compilePassive pr ;; compilePassives rest
  end.

(** [main] from the defaulting of [conf.Help] to the end of the loop over
    the passive responders; [conf] is the parsed configuration file. *)
Definition startup : M unit :=
  gl <- getGlobals ;;
  let c := conf gl in
  let c := if decide (conf_Help c = "") then setHelp c "help" else c in
  match regexp_Compile env ("^" +:+ conf_Help c +:+ "\s*(\w)*") with
  | inr _ =>
      putGlobals (freshGlobals (setHelpRegex c None)) ;;
      fatal "Bad help command:"
  | inl re =>
      let c := setHelpRegex c (Some re) in
      log Debug "Help command:" ;;
      log Debug "Config loaded:" ;;
      putGlobals (freshGlobals c) ;;
      responders <- deref (conf_Responders c) ;;
      compilePassives (Passive responders)
  end.

End Startup.

(** The world in which [main] starts: only the parsed [conf] is known. *)
Definition initialWorld (c : config) : world :=
  World (freshGlobals c) ∅ 0 [].

Definition isQuitSend (ev : event) : bool :=
  match ev with QuitSend => true | _ => false end.

(** The end of [main]: [<-quitChan] returns only if the dispatcher sent
    on [quitChan]; then the two closing lines are logged and [main]
    returns.  [None]: [main] stays blocked in the receive. *)
Definition mainAfterStart (dispatcherTrace : list event)
  : option (list event) :=
  if existsb isQuitSend dispatcherTrace
  then Some [Log Warn "Termination requtested"; Log Warn "Exited normally"]
  else None.

(** ** Predicates used in the statements *)

(** Sixteen characters, each a lowercase hexadecimal digit. *)
Definition is16LowerHex (s : string) : bool :=
  (String.length s =? 16) &&
  forallb isLowerHex (String.list_ascii_of_string s).

(** The world an outcome ends in, when it ends. *)
Definition finalWorld {A} (o : outcome A) : option world :=
  match o with
  | Ok _ w => Some w
  | Halted _ w => Some w
  | OutOfFuel => None
  end.

Definition isEncode (ev : event) : bool :=
  match ev with Encode _ _ => true | _ => false end.

(** The four active buckets, in the order prefix, noprefix, mention,
    unhandled, and the position a classification selects. *)
Definition activeBuckets (gl : globals) : list (list activeResponderConfig) :=
  [prefixAResponders gl; noPrefixAResponders gl;
   mentionAResponders gl; unhandledAResponders gl].

Definition passiveBuckets (gl : globals) : list (list passiveResponderConfig) :=
  [prefixPResponders gl; noPrefixPResponders gl;
   mentionPResponders gl; unhandledPResponders gl].

Definition classIndex (classification : string) : option nat :=
  if decide (classification = "prefix") then Some 0
  else if decide (classification = "noprefix") then Some 1
  else if decide (classification = "mention") then Some 2
  else if decide (classification = "unhandled") then Some 3
  else None.


(** The requests a pass through the body of [serve] hands to the
    dispatcher. *)
Definition submittedOf (evs : list serveEvent) : list dispatcherRequest :=
  omap (λ ev, match ev with Submit req => Some req | _ => None end) evs.

Definition submitted (s : serveStep) : list dispatcherRequest :=
  match s with
  | ServeStep evs _ _ => submittedOf evs
  | ServePanic evs => submittedOf evs
  end.


(** The envelope is a command with the given action. *)
Definition isCommandWith (action : string) (q : query) : bool :=
  bool_decide (q_Type q = "command") &&
  match q_Command q with
  | Some cmd => bool_decide (cmd_Action cmd = action)
  | None => false
  end.

(** [regexp.Compile] accepts the pattern. *)
Definition compiles (env : collaborators) (pattern : string) : bool :=
  match regexpError env pattern with
  | None => true
  | Some _ => false
  end.

(** The pattern [main] builds from the help keyword, after defaulting. *)
Definition helpPattern (c : config) : string :=
  "^" +:+ (if decide (conf_Help c = "") then "help" else conf_Help c)
      +:+ "\s*(\w)*".

(** The faults of one passive responder that make [main] call
    [logger.Error.Fatal]. *)
Definition passiveFault (env : collaborators) (pr : passiveResponderConfig)
  : bool :=
  (length (pr_Match pr) =? 0) ||
  negb (forallb (compiles env) (pr_Match pr)) ||
  negb (forallb (compiles env) (pr_MentionMatch pr)) ||
  bool_decide (pr_Cmd pr = "") ||
  bool_decide (pr_Help pr = "") ||
  (length (pr_HelpCmds pr) =? 0).

Definition startupFault (env : collaborators) (c : config) : bool :=
  negb (compiles env (helpPattern c)) ||
  match conf_Responders c with
  | Some responders => existsb (passiveFault env) (Passive responders)
  | None => false
  end.

(** [c] is [pr] with its compiled fields filled in by [main]. *)
Definition compiledFrom (pr c : passiveResponderConfig) : Prop :=
  ∃ substitute roomParam,
    c = setCompiled pr (CompiledRegexp <$> pr_Match pr)
          (CompiledRegexp <$> pr_MentionMatch pr) substitute roomParam.

Definition hasMention (c : passiveResponderConfig) : bool :=
  match pr_mRegex c with
  | [] => false
  | _ :: _ => true
  end.

(** The help entries [main] derives from a passive responder. *)
Definition helpOf (pr : passiveResponderConfig) : list helpInfo :=
  ((λ cmd, HelpInfo cmd (pr_Help pr) (pr_NoPrefix pr) false)
     <$> pr_HelpCmds pr) ++
  ((λ cmd, HelpInfo cmd (pr_Help pr) false true) <$> pr_HelpMentionCmds pr).

(** ** A concrete environment

    The theorems below hold for every [collaborators].  To run the
    embedding on concrete inputs, the absent methods are given bodies
    that follow the specification. *)

(** Modelled from the spec: [query.validate] is not part of the sources;
    the specification requires an envelope to carry exactly one of
    message/command, consistent with its type. *)
Definition specValidate (q : query) : option string :=
  if decide (q_Type q = "command") then
    match q_Command q, q_Message q with
    | Some _, None => None
    | _, _ => Some "command envelope must carry exactly a command"
    end
  else if decide (q_Type q = "message") then
    match q_Command q, q_Message q with
    | None, Some _ => None
    | _, _ => Some "message envelope must carry exactly a message"
    end
  else Some "unknown envelope type".

(** Modelled from the spec: [commandBlock.engageChk] is not part of the
    sources; the specification only says that it validates a
    shared-secret credential.  Here the credential travels in [data]. *)
Definition specEngageChk (cmd : commandBlock) (source secret : string)
  : option string :=
  if decide (cmd_Data cmd = secret) then None
  else Some "invalid credential".

(** Modelled from the spec: [commandBlock.registerChk] is not part of the
    sources; the specification requires the pattern in [data], the
    responder id in [id], exactly two elements in [array] and a
    classification among the four known ones. *)
Definition specRegisterChk (cmd : commandBlock) : option string :=
  if decide (cmd_Data cmd = "") then Some "pattern missing"
  else if decide (cmd_Id cmd = "") then Some "id missing"
  else if decide (length (cmd_Array cmd) ≠ 2) then Some "help missing"
  else if decide (cmd_Type cmd ∈ ["prefix"; "noprefix"; "mention"; "unhandled"])
  then None
  else Some "unknown classification".

(** Modelled from the spec: [query.checkEngagement] is not part of the
    sources; the specification requires the first envelope of a
    connection to be an [engage] command. *)
Definition specCheckEngagement (q : query) : option string :=
  match q_Command q with
  | Some cmd =>
      if decide (q_Type q = "command" ∧ cmd_Action cmd = "engage")
      then None else Some "engagement expected"
  | None => Some "engagement expected"
  end.

(** A stand-in for [regexp.Compile]'s verdict: the one-character pattern
    of an unclosed group is rejected, everything else is accepted. *)
Definition sampleRegexpError (pattern : string) : option string :=
  if decide (pattern = "(") then Some "missing closing )" else None.

(** A reader that fills the buffer with the byte [n] on read [n]. *)
Definition sampleRandReader (n : nat) : list byte :=
  replicate 8 (default x00%byte (Byte.of_N (N.of_nat n))).

Definition sampleEnv : collaborators :=
  Collaborators specValidate specEngageChk specRegisterChk
    specCheckEngagement sampleRegexpError sampleRandReader.

Definition sampleConf : config := Config "help" "s3cret" (Some (ResponderConfig [])) None.

(** ** Sample inputs *)

(** The dispatcher's world right after start-up with [sampleConf], and
    the same once a connection is registered under the id [bob] with
    encoder 7. *)
Definition sampleWorld : world := initialWorld sampleConf.

Definition bobWorld : world :=
  World (freshGlobals sampleConf) {["bob" := 7]} 0 [].

Definition engageQuery (source credential : string) : query :=
  MkQuery "command" source ""
    (Some (CommandBlock "" "engage" "adapter" credential [] [])) None.

(** What [serve] submits when the adapter engaged as [bob] sends an
    [engage] command again: the connection's encoder, no reply channel. *)
Definition reengageRequest (credential : string) : dispatcherRequest :=
  DispatcherRequest (engageQuery "bob" credential) (Some 7) None.

Definition registerCommand (classification pattern : string) : commandBlock :=
  CommandBlock "r1" "register" classification pattern
    ["ping"; "replies pong"] ["fallthrough"].

Definition registerRequest (classification pattern : string)
  : dispatcherRequest :=
  DispatcherRequest
    (MkQuery "command" "bob" "server"
       (Some (registerCommand classification pattern)) None)
    (Some 7) None.

Definition sampleMessage : messageBlock := MessageBlock "pong" "lobby".

Definition messageRequest (to : string) : dispatcherRequest :=
  DispatcherRequest (MkQuery "message" "resp" to None (Some sampleMessage))
    (Some 8) None.

Definition samplePassive (mentionMatch helpCmds : list string)
  : passiveResponderConfig :=
  PassiveResponderConfig "echo" ["^ping$"] mentionMatch false false
    "/bin/echo" ["__room__ says hi"; "__1__"] "replies to ping" helpCmds []
    [] [] ∅ ∅.

Definition confWith (pr : passiveResponderConfig) : config :=
  Config "" "s3cret" (Some (ResponderConfig [pr])) None.

(** A first engagement with a reply channel, as [initialize] submits it. *)
Definition engageRequest (source : string) (ch : chan) : dispatcherRequest :=
  DispatcherRequest (engageQuery source "s3cret") (Some 7) (Some ch).

Definition sampleRequests : list dispatcherRequest :=
  [engageRequest "bob" 1; engageRequest "" 2; engageRequest "bob" 3;
   registerRequest "mention" "^hi"; messageRequest "bob";
   messageRequest "nobody"].

(** The world a computation ends in, or [w] itself when it has not ended. *)
Definition endWorld {A} (o : outcome A) (w : world) : world :=
  default w (finalWorld o).

Definition mentionConf : config := confWith (samplePassive ["^hello"] ["ping"]).


(** ** Further predicates *)

(** The registries of [gl'] extend those of [gl]: same configuration and
    passive lists, the help list and every active bucket only longer. *)
Definition registriesGrow (gl gl' : globals) : Prop :=
  conf gl' = conf gl ∧
  passiveBuckets gl' = passiveBuckets gl ∧
  help gl `prefix_of` help gl' ∧
  prefixAResponders gl `prefix_of` prefixAResponders gl' ∧
  noPrefixAResponders gl `prefix_of` noPrefixAResponders gl' ∧
  mentionAResponders gl `prefix_of` mentionAResponders gl' ∧
  unhandledAResponders gl `prefix_of` unhandledAResponders gl'.

(** Reading hexadecimal back, to state that [%x] loses nothing. *)
Definition unhexDigit (a : ascii) : option N :=
  let n := N_of_ascii a in
  if ((48 <=? n) && (n <=? 57))%N then Some (n - 48)%N
  else if ((97 <=? n) && (n <=? 102))%N then Some (n - 87)%N
  else None.

Fixpoint unhex (cs : list ascii) : option (list byte) :=
  match cs with
  | [] => Some []
  | [_] => None
  | hi :: lo :: rest =>
      match unhexDigit hi, unhexDigit lo with
      | Some h, Some l =>
          match Byte.of_N (16 * h + l), unhex rest with
          | Some b, Some bs => Some (b :: bs)
          | _, _ => None
          end
      | _, _ => None
      end
  end.

(** [n] times the character [0]. *)
Definition zeros (n : nat) : string :=
  String.string_of_list_ascii (replicate n "0"%char).

(** The three kinds of request [serve] hands to the dispatcher for a
    connection with encoder [enc], reply channel [resp] and assigned id
    [reply], given what was decoded from the stream: the handshake
    envelope with the reply channel, a validated envelope re-stamped
    with the assigned id (and possibly a cleared [to]), and the
    [disengage] sent at the end of the stream. *)
Definition serveSubmission (env : collaborators) (enc : encoder)
    (resp : chan) (reply : string) (input : list decoded)
    (req : dispatcherRequest) : Prop :=
  (∃ q, Decoded q ∈ input ∧ checkEngagement env q = None ∧
        req = DispatcherRequest q (Some enc) (Some resp)) ∨
  (∃ q, Decoded q ∈ input ∧ validate env q = None ∧ reply ≠ "" ∧
        (req = DispatcherRequest (setSource q reply) (Some enc) None ∨
         req = DispatcherRequest (setTo (setSource q reply) "")
                 (Some enc) None)) ∨
  (DecodeEOF ∈ input ∧
   (req = DispatcherRequest (disengageQuery "") None None ∨
    req = DispatcherRequest (disengageQuery reply) None None)).

(** The submission [serve] makes at the end of the stream is the only
    one without an encoder. *)
Definition isStreamEndSubmit (ev : serveEvent) : bool :=
  match ev with
  | Submit req => match Encoder req with None => true | Some _ => false end
  | _ => false
  end.

(** The configuration as [main] leaves it once the help pattern has
    compiled: the help keyword defaulted, the compiled pattern stored. *)
Definition normalisedConf (c : config) : config :=
  Config (if decide (conf_Help c = "") then "help" else conf_Help c)
         (conf_Secret c) (conf_Responders c)
         (Some (CompiledRegexp (helpPattern c))).

(** The marks of a compiled passive responder agree with its argument
    template: slot [k] is in [substitute] (resp. [roomParam]), with value
    true, exactly when argument [k] exists and matches the capture marker
    (resp. the room marker); no slot is ever stored with value false. *)
Definition argMarks (c : passiveResponderConfig) : Prop :=
  ∀ k : nat,
    pr_substitute c !! k =
      match pr_Args c !! k with
      | Some arg => if subRegex_MatchString arg then Some true else None
      | None => None
      end ∧
    pr_roomParam c !! k =
      match pr_Args c !! k with
      | Some arg => if roomRegex_MatchString arg then Some true else None
      | None => None
      end.

(** ** The defaults [main] applies before listening *)

Definition isSpace (a : ascii) : bool := Ascii.eqb a " ".

(** [strings.TrimLeft(s, " ")] on the characters of a string. *)
Fixpoint trimLeft (cs : list ascii) : list ascii :=
  match cs with
  | [] => []
  | c :: rest => if isSpace c then trimLeft rest else cs
  end.

(** [strings.Trim(s, " ")]: the spaces at both ends are removed. *)
Definition trimSpaces (cs : list ascii) : list ascii :=
  rev (trimLeft (rev (trimLeft cs))).

Definition strings_Trim_space (s : string) : string :=
  String.string_of_list_ascii (trimSpaces (String.list_ascii_of_string s)).

(** The fields [main] settles between the responders and the listener:
    [conf.Port], [conf.Prefix] and [conf.prefixLen]. *)
Record listenConf := ListenConf {
  lc_Port : Z;
  lc_Prefix : string;
  lc_prefixLen : nat
}.

(** [main] from the port default to the computation of [prefixLen],
    given the parsed port and prefix: the lines logged and the settled
    fields. *)
Definition mainDefaults (port : Z) (prefix : string)
  : list event * listenConf :=
  let '(portLog, port) :=
    if decide (port = 0%Z)
    then ([Log Warn "No port specified, using default: 4517"], 4517%Z)
    else ([], port) in
  let prefix := strings_Trim_space prefix in
  let '(prefixLog, prefix) :=
    if decide (String.length prefix < 1)
    then ([Log Warn "No prefix specified, using default: pris"], "pris")
    else ([], prefix) in
  let prefix := prefix +:+ " " in
  (portLog ++ prefixLog, ListenConf port prefix (String.length prefix)).

(** [n] spaces. *)
Definition spaces (n : nat) : string :=
  String.string_of_list_ascii (replicate n " "%char).

(** The string neither starts nor ends with a space. *)
Definition outerSpaceFree (s : string) : Prop :=
  head (String.list_ascii_of_string s) ≠ Some " "%char ∧
  last (String.list_ascii_of_string s) ≠ Some " "%char.

Definition isHandOff (ev : event) : bool :=
  match ev with
  | GoHandleCommand _ _ | GoHandleMessage _ _ => true
  | _ => false
  end.

(** ** Further sample inputs *)

Definition disengageRequest (id : string) : dispatcherRequest :=
  DispatcherRequest (disengageQuery id) None None.

(** A message as an adapter might send it, with a source and a
    destination of its own choosing. *)
Definition adapterMessage : query :=
  MkQuery "message" "mallory" "bob" None (Some sampleMessage).

(** A reply as a responder sends it to the connection [bob]. *)
Definition responderReply : query :=
  MkQuery "message" "" "bob" None (Some sampleMessage).

Definition sampleStream : list decoded :=
  [Decoded (engageQuery "bob" "s3cret"); Decoded adapterMessage; DecodeEOF].

(** An environment whose random source delivers nothing, and a table in
    which the id made of zeros is taken. *)
Definition silentReaderEnv : collaborators :=
  Collaborators specValidate specEngageChk specRegisterChk
    specCheckEngagement sampleRegexpError (λ _, []).

Definition zeroWorld : world :=
  World (freshGlobals sampleConf) {["0000000000000000" := 7]} 0 [].

Definition noRespondersConf : config := Config "" "s3cret" None None.

(** What [serve] submits for [adapterMessage] on the adapter connection
    engaged as [bob]. *)
Definition forwardedAdapterMessage : dispatcherRequest :=
  DispatcherRequest (setTo (setSource adapterMessage "bob") "") (Some 7) None.

(** A second connection, with encoder 8 and reply channel 2, asking for
    the id [bob] as well. *)
Definition secondEngageRequest : dispatcherRequest :=
  DispatcherRequest (engageQuery "bob" "s3cret") (Some 8) (Some 2).

(** A first engagement with a wrong credential. *)
Definition rejectedEngageRequest : dispatcherRequest :=
  DispatcherRequest (engageQuery "bob" "guess") (Some 7) (Some 1).

(** Requests among which there is no [engage] and no [disengage], and
    requests among which there is no [register]. *)
Definition tableQuietRequests : list dispatcherRequest :=
  [registerRequest "prefix" "^ping$"; messageRequest "bob";
   forwardedAdapterMessage].

Definition registryQuietRequests : list dispatcherRequest :=
  [engageRequest "bob" 1; messageRequest "bob"; disengageRequest "bob"].
(** ** [generateId] yields sixteen lowercase hexadecimal characters *)

Lemma hexByte_lower (b : byte) : forallb isLowerHex (hexByte b) = true.
Proof. destruct b; reflexivity. Qed.

Lemma hexBytes_lower (bs : list byte) :
  forallb isLowerHex (concat (map hexByte bs)) = true.
Proof.
  induction bs as [|b bs IH]; [reflexivity|].
  cbn [map concat]. rewrite forallb_app, hexByte_lower, IH. reflexivity.
Qed.

Lemma hexBytes_length (bs : list byte) :
  length (concat (map hexByte bs)) = 2 * length bs.
Proof.
  induction bs as [|b bs IH]; [reflexivity|].
  cbn [map concat]. rewrite length_app, IH. simpl. lia.
Qed.

Lemma string_of_list_ascii_length (cs : list ascii) :
  String.length (String.string_of_list_ascii cs) = length cs.
Proof. induction cs as [|c cs IH]; simpl; congruence. Qed.

Lemma readFull_length (n : nat) (delivered : list byte) :
  length (readFull n delivered) = n.
Proof.
  unfold readFull. rewrite length_take, length_app, length_replicate. lia.
Qed.

Lemma generateId_hex (delivered : list byte) :
  is16LowerHex (generateId delivered) = true.
Proof.
  unfold is16LowerHex, generateId, sprintf_x.
  rewrite string_of_list_ascii_length, hexBytes_length, readFull_length.
  rewrite String.list_ascii_of_string_of_list_ascii, hexBytes_lower.
  reflexivity.
Qed.

Lemma is16LowerHex_nonempty (s : string) : is16LowerHex s = true → s ≠ "".
Proof. intros H ->. discriminate H. Qed.

Lemma generateId_nonempty (delivered : list byte) : generateId delivered ≠ "".
Proof. apply is16LowerHex_nonempty, generateId_hex. Qed.

(** ** The dispatcher *)

Ltac mrun :=
  unfold bind, ret, log, emit, stop, getGlobals, getConnMap, putConnMap,
    putGlobals, modifyGlobals, chanSend, chanClose, deref, index,
    callGenerateId in *;
  simpl in *.

(** Closes goals about whether a trace extended by concrete events
    contains [QuitSend]. *)
Ltac quiet :=
  simpl; rewrite ?existsb_app; simpl; rewrite ?orb_false_r; auto.

(** The loop over the options sets [matchNext] exactly when one of them
    is the flag [fallthrough]. *)
Lemma matchNextOf_fold (options : list string) (acc : bool) :
  fold_left (λ acc option,
               if decide (option = "fallthrough") then true else acc)
            options acc
  = acc || bool_decide ("fallthrough" ∈ options).
Proof.
  revert acc. induction options as [|o options IH]; intros acc;
    cbn [fold_left].
  - rewrite bool_decide_eq_false_2 by apply not_elem_of_nil.
    rewrite orb_false_r. reflexivity.
  - rewrite IH. destruct (decide (o = "fallthrough")) as [->|Hne].
    + rewrite (bool_decide_eq_true_2 ("fallthrough" ∈ "fallthrough" :: options))
        by apply list_elem_of_here.
      rewrite orb_true_r. reflexivity.
    + destruct (decide ("fallthrough" ∈ options)) as [Hin|Hnin].
      * rewrite (bool_decide_eq_true_2 _ Hin).
        rewrite bool_decide_eq_true_2; [reflexivity|].
        apply list_elem_of_further. assumption.
      * rewrite (bool_decide_eq_false_2 _ Hnin).
        rewrite bool_decide_eq_false_2; [reflexivity|].
        intros Hin. apply elem_of_cons in Hin as [Heq|Hin]; auto.
Qed.

Lemma matchNextOf_spec (options : list string) :
  matchNextOf options = true ↔ "fallthrough" ∈ options.
Proof.
  unfold matchNextOf. rewrite matchNextOf_fold. simpl.
  apply bool_decide_eq_true.
Qed.

Section DispatcherFacts.

Variable env : collaborators.

(** The collision loop only reads from [rand.Reader]; what it returns is
    free in the table, and is either the id it was given or a generated
    one. *)
Lemma collisionLoop_result (fuel : nat) :
  ∀ (id : string) (w : world) (id' : string) (w' : world),
    collisionLoop env fuel id w = Ok id' w' →
    g w' = g w ∧ connMap w' = connMap w ∧ trace w' = trace w ∧
    connMap w !! id' = None ∧
    (id' = id ∨
     (is_Some (connMap w !! id) ∧ ∃ n, id' = generateId (randReader env n))).
Proof.
  induction fuel as [|fuel IH]; intros id w id' w' Hrun; simpl in Hrun.
  - destruct (connMap w !! id) eqn:Hlk; [discriminate|].
    injection Hrun as <- <-. repeat split; auto.
  - destruct (connMap w !! id) eqn:Hlk.
    + mrun. apply IH in Hrun as (Hg & Hm & Ht & Hfree & Hid). simpl in *.
      repeat split; try assumption.
      right. split; [eauto|]. destruct Hid as [->|[_ Hgen]]; eauto.
    + injection Hrun as <- <-. repeat split; auto.
Qed.

Lemma collisionLoop_never_halts (fuel : nat) :
  ∀ (id : string) (w : world) (h : halt) (w' : world),
    collisionLoop env fuel id w ≠ Halted h w'.
Proof.
  induction fuel as [|fuel IH]; intros id w h w'; simpl.
  - destruct (connMap w !! id); discriminate.
  - destruct (connMap w !! id); [|discriminate]. mrun. apply IH.
Qed.

(** The loop ends as soon as the reader delivers an id that is free. *)
Lemma collisionLoop_terminates (j : nat) :
  ∀ (fuel : nat) (id : string) (w : world),
    j < fuel →
    connMap w !! generateId (randReader env (reads w + j)) = None →
    ∃ id' w', collisionLoop env fuel id w = Ok id' w'.
Proof.
  induction j as [|j IH]; intros fuel id w Hfuel Hfree.
  - destruct fuel as [|fuel]; [lia|]. simpl.
    destruct (connMap w !! id); [|eauto]. mrun.
    rewrite Nat.add_0_r in Hfree.
    destruct fuel; simpl; rewrite Hfree; eauto.
  - destruct fuel as [|fuel]; [lia|]. simpl.
    destruct (connMap w !! id); [|eauto]. mrun.
    apply IH; [lia|]. simpl.
    replace (S (reads w + j)) with (reads w + S j) by lia. exact Hfree.
Qed.

Lemma collisionLoop_free (fuel : nat) (id : string) (w : world) :
  connMap w !! id = None → collisionLoop env fuel id w = Ok id w.
Proof. intros H. destruct fuel; simpl; rewrite H; reflexivity. Qed.

(** The two steps that choose the id of an accepted engagement, followed
    by any continuation [k]: the requested id when it is non-empty and
    free, a generated one otherwise. *)
Lemma chooseId {B} (fuel : nat) (source : string) (w : world) (j : nat)
    (k : string → M B) :
  j < fuel →
  connMap w !! generateId (randReader env (reads w + j)) = None →
  ∃ id w1,
    bind (if decide (source = "") then callGenerateId env else ret source)
         (λ id0, bind (collisionLoop env fuel id0) k) w = k id w1 ∧
    g w1 = g w ∧ connMap w1 = connMap w ∧ trace w1 = trace w ∧
    connMap w !! id = None ∧
    id ≠ "" ∧
    (source ≠ "" → connMap w !! source = None → id = source) ∧
    (source = "" ∨ is_Some (connMap w !! source) →
     ∃ n, id = generateId (randReader env n)).
Proof.
  intros Hfuel Hfree.
  destruct (decide (source = "")) as [->|Hne].
  - unfold bind at 1. unfold callGenerateId.
    set (w0 := World (g w) (connMap w) (S (reads w)) (trace w)).
    set (id0 := generateId (randReader env (reads w))).
    assert (Hloop : ∃ id' w', collisionLoop env fuel id0 w0 = Ok id' w').
    { destruct j as [|j].
      - rewrite Nat.add_0_r in Hfree. exists id0, w0.
        apply collisionLoop_free. exact Hfree.
      - apply (collisionLoop_terminates j); [lia|]. simpl.
        replace (S (reads w + j)) with (reads w + S j) by lia. exact Hfree. }
    destruct Hloop as (id' & w' & Hloop).
    exists id', w'. unfold bind. rewrite Hloop.
    apply collisionLoop_result in Hloop as (Hg & Hm & Ht & Hf & Hid).
    simpl in *. repeat split; try assumption; try congruence.
    + destruct Hid as [->|[_ [n ->]]]; apply generateId_nonempty.
    + intros _. destruct Hid as [->|[_ Hgen]]; eauto.
  - destruct (collisionLoop_terminates j fuel source w Hfuel Hfree)
      as (id' & w' & Hloop).
    exists id', w'. unfold bind at 1. unfold ret. unfold bind. rewrite Hloop.
    apply collisionLoop_result in Hloop as (Hg & Hm & Ht & Hf & Hid).
    repeat split; try assumption.
    + destruct Hid as [->|[_ [n ->]]]; [assumption|apply generateId_nonempty].
    + intros _ Hsrc. destruct Hid as [->|[[e He] _]]; [reflexivity|congruence].
    + intros [?|[e He]]; [contradiction|].
      destruct Hid as [->|[_ Hgen]]; [congruence|assumption].
Qed.

(** Which branch of [dispatch] a validated command reaches. *)
Lemma dispatch_command (fuel : nat) (req : dispatcherRequest)
    (cmd : commandBlock) (w : world) :
  validate env (Query req) = None →
  q_Type (Query req) = "command" →
  q_Command (Query req) = Some cmd →
  dispatch env fuel req w =
    if decide (cmd_Action cmd = "engage")
    then engage env fuel req (Query req) cmd w
    else if decide (cmd_Action cmd = "disengage") then disengage (Query req) w
    else if decide (cmd_Action cmd = "register")
    then register env (Query req) cmd w
    else bind (emit (GoHandleCommand cmd (q_Source (Query req))))
              (λ _, ret Continue) w.
Proof.
  intros Hv Ht Hc. unfold dispatch. rewrite Hv, Hc.
  destruct (decide (q_Type (Query req) = "command")); [|contradiction].
  unfold bind at 1. simpl. repeat case_decide; reflexivity.
Qed.

(** X26: an accepted engagement that carries a reply channel: the id is
    chosen as above, installed for the request's encoder, announced on the
    channel and in a [proceed] command; every entry that was in the table
    is still there. *)
Lemma engage_accepted (fuel : nat) (req : dispatcherRequest)
    (cmd : commandBlock) (enc : encoder) (ch : chan) (w : world) (j : nat) :
  validate env (Query req) = None →
  q_Type (Query req) = "command" →
  q_Command (Query req) = Some cmd →
  cmd_Action cmd = "engage" →
  Encoder req = Some enc →
  EngageResp req = Some ch →
  engageChk env cmd (q_Source (Query req)) (conf_Secret (conf (g w))) = None →
  j < fuel →
  connMap w !! generateId (randReader env (reads w + j)) = None →
  ∃ id w' warn,
    dispatch env fuel req w = Ok Continue w' ∧
    connMap w !! id = None ∧
    (q_Source (Query req) ≠ "" → connMap w !! q_Source (Query req) = None →
     id = q_Source (Query req)) ∧
    (q_Source (Query req) = "" ∨ is_Some (connMap w !! q_Source (Query req)) →
     is16LowerHex id = true ∧ ∃ n, id = generateId (randReader env n)) ∧
    connMap w' = <[id := enc]> (connMap w) ∧
    (∀ k e, connMap w !! k = Some e → connMap w' !! k = Some e) ∧
    g w' = g w ∧
    trace w' = trace w ++ warn ++
      [Log Info "Engagement accepted: "; ChanSend ch id; ChanClose ch;
       Encode enc (proceedQuery id)] ∧
    Forall (λ ev, ∃ text, ev = Log Warn text) warn.
Proof.
  intros Hv Ht Hc Ha He Hr Hchk Hfuel Hfree.
  rewrite (dispatch_command fuel req cmd w Hv Ht Hc).
  rewrite decide_True by exact Ha.
  unfold engage. rewrite He, Hr.
  unfold bind at 1. unfold getGlobals. rewrite Hchk.
  match goal with
  | |- context [bind _ (λ id0, bind (collisionLoop _ _ id0) ?k) _] =>
      destruct (chooseId fuel (q_Source (Query req)) w j k Hfuel Hfree)
        as (id & w1 & -> & Hg & Hm & Htr & Hfr & Hne & Hsame & Hgen)
  end.
  exists id. mrun. rewrite Hg, Hm, Htr.
  destruct (decide (id ≠ q_Source (Query req) ∧ q_Source (Query req) ≠ ""));
    simpl.
  - eexists _, [Log Warn _]. split; [reflexivity|]. simpl.
    split_and!; try assumption; try reflexivity.
    + intros Hcase. destruct (Hgen Hcase) as [m ->].
      split; [apply generateId_hex|eauto].
    + intros k e Hk. rewrite lookup_insert_ne; [assumption|congruence].
    + rewrite <- !app_assoc. reflexivity.
    + repeat constructor. eauto.
  - eexists _, []. split; [reflexivity|]. simpl.
    split_and!; try assumption; try reflexivity.
    + intros Hcase. destruct (Hgen Hcase) as [m ->].
      split; [apply generateId_hex|eauto].
    + intros k e Hk. rewrite lookup_insert_ne; [assumption|congruence].
    + rewrite <- !app_assoc. reflexivity.
    + constructor.
Qed.

(** X27: a rejected engagement that carries a reply channel: the empty id
    is sent on the channel, a [terminate] command with the reason is written,
    and the table is as before. *)
Lemma engage_rejected (fuel : nat) (req : dispatcherRequest)
    (cmd : commandBlock) (enc : encoder) (ch : chan) (w : world)
    (reason : string) :
  validate env (Query req) = None →
  q_Type (Query req) = "command" →
  q_Command (Query req) = Some cmd →
  cmd_Action cmd = "engage" →
  Encoder req = Some enc →
  EngageResp req = Some ch →
  engageChk env cmd (q_Source (Query req)) (conf_Secret (conf (g w)))
    = Some reason →
  ∃ w',
    dispatch env fuel req w = Ok Continue w' ∧
    connMap w' = connMap w ∧
    g w' = g w ∧
    trace w' = trace w ++
      [Log Error "Invalid engagement request"; ChanSend ch ""; ChanClose ch;
       Encode enc (terminateQuery (q_Source (Query req)) reason)].
Proof.
  intros Hv Ht Hc Ha He Hr Hchk.
  rewrite (dispatch_command fuel req cmd w Hv Ht Hc).
  rewrite decide_True by exact Ha.
  unfold engage. rewrite He, Hr.
  unfold bind at 1. unfold getGlobals. rewrite Hchk. mrun.
  eexists. split; [reflexivity|]. simpl.
  rewrite <- !app_assoc. auto.
Qed.

(** Without any assumption on the reader: the choice of the id either
    is still looping when the fuel is spent or hands a free, non-empty id
    to the continuation. *)
Lemma chooseId_cases {B} (fuel : nat) (source : string) (w : world)
    (k : string → M B) :
  bind (if decide (source = "") then callGenerateId env else ret source)
       (λ id0, bind (collisionLoop env fuel id0) k) w = OutOfFuel ∨
  ∃ id w1,
    bind (if decide (source = "") then callGenerateId env else ret source)
         (λ id0, bind (collisionLoop env fuel id0) k) w = k id w1 ∧
    g w1 = g w ∧ connMap w1 = connMap w ∧ trace w1 = trace w ∧
    connMap w !! id = None ∧ id ≠ "".
Proof.
  unfold bind at 1 3.
  destruct (decide (source = "")) as [->|Hne]; unfold callGenerateId, ret.
  - set (w0 := World (g w) (connMap w) (S (reads w)) (trace w)).
    set (id0 := generateId (randReader env (reads w))).
    unfold bind.
    destruct (collisionLoop env fuel id0 w0) as [id' w'|h w'|] eqn:Hloop.
    + right. exists id', w'. split; [reflexivity|].
      apply collisionLoop_result in Hloop as (Hg & Hm & Ht & Hf & Hid).
      simpl in *. split_and!; try assumption.
      destruct Hid as [->|[_ [n ->]]]; apply generateId_nonempty.
    + exfalso. exact (collisionLoop_never_halts _ _ _ _ _ Hloop).
    + left. reflexivity.
  - unfold bind.
    destruct (collisionLoop env fuel source w) as [id' w'|h w'|] eqn:Hloop.
    + right. exists id', w'. split; [reflexivity|].
      apply collisionLoop_result in Hloop as (Hg & Hm & Ht & Hf & Hid).
      split_and!; try assumption.
      destruct Hid as [->|[_ [n ->]]]; [assumption|apply generateId_nonempty].
    + exfalso. exact (collisionLoop_never_halts _ _ _ _ _ Hloop).
    + left. reflexivity.
Qed.

(** What one pass of the loop body can do, whatever the request: it
    never asks to leave the loop, it never sends on [quitChan], and it
    never installs the empty string as a key of the table. *)
Lemma dispatch_outcome (fuel : nat) (req : dispatcherRequest) (w : world) :
  match dispatch env fuel req w with
  | Ok c w' =>
      c = Continue ∧
      existsb isQuitSend (trace w') = existsb isQuitSend (trace w) ∧
      (connMap w !! "" = None → connMap w' !! "" = None)
  | Halted _ w' =>
      existsb isQuitSend (trace w') = existsb isQuitSend (trace w) ∧
      (connMap w !! "" = None → connMap w' !! "" = None)
  | OutOfFuel => True
  end.
Proof.
  unfold dispatch.
  destruct (validate env (Query req)); [mrun; quiet|].
  destruct (decide (q_Type (Query req) = "command")) as [Ht|Ht].
  - unfold bind at 1. destruct (q_Command (Query req)) as [cmd|];
      [|mrun; auto]. simpl.
    destruct (decide (cmd_Action cmd = "engage")) as [Ha|Ha];
      [|destruct (decide (cmd_Action cmd = "disengage")) as [Hd|Hd];
        [|destruct (decide (cmd_Action cmd = "register")) as [Hr|Hr]]].
    + unfold engage. destruct (Encoder req) as [enc|];
        [|mrun; quiet].
      unfold bind at 1. unfold getGlobals.
      destruct (engageChk env cmd _ _) as [reason|].
      * destruct (EngageResp req); mrun;
          quiet.
      * match goal with
        | |- context [bind _ (λ id0, bind (collisionLoop _ _ id0) ?k) _] =>
            destruct (chooseId_cases fuel (q_Source (Query req)) w k)
              as [->|(id & w1 & -> & Hg & Hm & Htr & Hfr & Hne)]
        end; [exact I|].
        destruct (EngageResp req); mrun; rewrite Hm, Htr;
          case_decide; simpl;
          rewrite ?existsb_app; simpl; rewrite ?orb_false_r;
          (split_and?; [done..|]); intros Hk;
          rewrite lookup_insert_ne; done.
    + unfold disengage. mrun. case_decide; simpl;
        rewrite ?existsb_app; simpl; rewrite ?orb_false_r;
        (split_and?; [done..|]); intros Hk; [|done].
      rewrite lookup_delete_ne; done.
    + unfold register. mrun.
      destruct (registerChk env cmd);
        [quiet|].
      destruct (regexp_Compile env (cmd_Data cmd));
        [|quiet].
      destruct (cmd_Array cmd) as [|a0 [|a1 rest]]; simpl;
        repeat case_decide; quiet.
    + mrun. quiet.
  - destruct (decide (q_Type (Query req) = "message")) as [Hm|Hm];
      [|mrun; quiet].
    unfold routeMessage.
    case_decide; destruct (q_Message (Query req)); mrun; auto;
      try destruct (connMap w !! q_To (Query req)); simpl;
      quiet.
Qed.

Lemma dispatcherLoop_outcome (fuel : nat) (requests : list dispatcherRequest) :
  ∀ w : world,
    match dispatcherLoop env fuel requests w with
    | Ok r w' =>
        r = AwaitingRequest ∧
        existsb isQuitSend (trace w') = existsb isQuitSend (trace w) ∧
        (connMap w !! "" = None → connMap w' !! "" = None)
    | Halted _ w' =>
        existsb isQuitSend (trace w') = existsb isQuitSend (trace w) ∧
        (connMap w !! "" = None → connMap w' !! "" = None)
    | OutOfFuel => True
    end.
Proof.
  induction requests as [|req rest IH]; intros w; simpl.
  - unfold ret. auto.
  - unfold bind.
    pose proof (dispatch_outcome fuel req w) as Hstep.
    destruct (dispatch env fuel req w) as [c w1|h w1|]; [|exact Hstep|exact I].
    destruct Hstep as (-> & Hq & Hk).
    specialize (IH w1).
    destruct (dispatcherLoop env fuel rest w1) as [r w2|h w2|]; [| |exact I].
    + destruct IH as (-> & Hq' & Hk'). split_and!; [done|congruence|auto].
    + destruct IH as (Hq' & Hk'). split; [congruence|auto].
Qed.

(** C9: once started, the dispatcher never leaves its receive loop.
    Whatever requests arrive, a run ends waiting for the next request,
    stopped inside the loop, or still looping; it never returns, it adds
    no send on [quitChan], and so [main], blocked in [<-quitChan], never
    reaches its closing log lines. *)
Theorem dispatcher_never_leaves_loop (fuel : nat)
    (requests : list dispatcherRequest) (w : world) :
  existsb isQuitSend (trace w) = false →
  match dispatcher env fuel requests w with
  | Ok r w' => r = AwaitingRequest ∧ mainAfterStart (trace w') = None
  | Halted _ w' => mainAfterStart (trace w') = None
  | OutOfFuel => True
  end.
Proof.
  intros Hq. unfold dispatcher, bind, putConnMap.
  set (w0 := World (g w) ∅ (reads w) (trace w)).
  pose proof (dispatcherLoop_outcome fuel requests w0) as Hrun.
  unfold mainAfterStart.
  destruct (dispatcherLoop env fuel requests w0) as [r w'|h w'|]; [| |exact I].
  - destruct Hrun as (-> & Hq' & _). simpl in Hq'. rewrite Hq', Hq. auto.
  - destruct Hrun as (Hq' & _). simpl in Hq'. rewrite Hq', Hq. auto.
Qed.

(** C10: [generateId] returns sixteen lowercase hexadecimal characters
    whatever the reader delivers (nothing, fewer than eight bytes, or
    more), and no run of the dispatcher ever leaves the empty string as a
    key of the connection table, so the empty id sent on a reply channel
    cannot be the id of a connection. *)
Theorem generated_ids_and_table_keys_nonempty (fuel : nat)
    (requests : list dispatcherRequest) (w w' : world)
    (delivered : list byte) :
  finalWorld (dispatcher env fuel requests w) = Some w' →
  is16LowerHex (generateId delivered) = true ∧
  generateId delivered ≠ "" ∧
  connMap w' !! "" = None ∧
  (∀ id, is_Some (connMap w' !! id) → id ≠ "").
Proof.
  intros Hfin. split; [apply generateId_hex|].
  split; [apply generateId_nonempty|].
  assert (Hk : connMap w' !! "" = None).
  { unfold dispatcher, bind, putConnMap in Hfin.
    set (w0 := World (g w) ∅ (reads w) (trace w)) in Hfin.
    pose proof (dispatcherLoop_outcome fuel requests w0) as Hrun.
    destruct (dispatcherLoop env fuel requests w0) as [r w1|h w1|];
      simpl in Hfin; [| |discriminate]; injection Hfin as ->.
    - destruct Hrun as (_ & _ & Hk). apply Hk. apply lookup_empty.
    - destruct Hrun as (_ & Hk). apply Hk. apply lookup_empty. }
  split; [exact Hk|].
  intros id [e He] ->. congruence.
Qed.

(** C4: a validated message envelope whose [to] is neither empty nor
    ["server"] is written unchanged to the encoder registered under [to]
    when there is one; otherwise an error is logged and nothing else
    happens.  In both cases the table and the registries are as before,
    no other encoder is written to, and the loop goes on. *)
Theorem message_forwarded_or_dropped (fuel : nat) (req : dispatcherRequest)
    (msg : messageBlock) (w : world) :
  validate env (Query req) = None →
  q_Type (Query req) = "message" →
  q_Message (Query req) = Some msg →
  q_To (Query req) ≠ "" →
  q_To (Query req) ≠ "server" →
  ∃ w',
    dispatch env fuel req w = Ok Continue w' ∧
    g w' = g w ∧ connMap w' = connMap w ∧
    trace w' = trace w ++
      [Log Debug "Responder message received:"; Log Debug "Query source:";
       match connMap w !! q_To (Query req) with
       | Some enc => Encode enc (Query req)
       | None => Log Error "Cannot find adapter source for"
       end].
Proof.
  intros Hv Ht Hm Hto Hsrv. unfold dispatch. rewrite Hv.
  destruct (decide (q_Type (Query req) = "command")) as [Hc|_];
    [rewrite Ht in Hc; discriminate|].
  rewrite decide_True by exact Ht.
  unfold routeMessage. rewrite decide_True by auto. rewrite Hm. mrun.
  destruct (connMap w !! q_To (Query req)); simpl;
    (eexists; split; [reflexivity|]); simpl;
    rewrite <- !app_assoc; auto.
Qed.

(** C6: a [register] command whose pattern does not compile is dropped
    after logging: the table and every registry (the four active
    buckets, the passive ones, the help list) are as before and nothing
    is written to any connection. *)
Theorem register_bad_pattern_dropped (fuel : nat) (req : dispatcherRequest)
    (cmd : commandBlock) (reason : string) (w : world) :
  validate env (Query req) = None →
  q_Type (Query req) = "command" →
  q_Command (Query req) = Some cmd →
  cmd_Action cmd = "register" →
  regexpError env (cmd_Data cmd) = Some reason →
  ∃ w',
    dispatch env fuel req w = Ok Continue w' ∧
    g w' = g w ∧ connMap w' = connMap w ∧
    trace w' = trace w ++
      [Log Debug "Register command received:";
       Log Error (match registerChk env cmd with
                  | None => "Error compiling regex:"
                  | Some _ => "Invalid register command:"
                  end)].
Proof.
  intros Hv Ht Hc Ha Hre.
  rewrite (dispatch_command fuel req cmd w Hv Ht Hc).
  rewrite Ha. simpl. unfold register, regexp_Compile. rewrite Hre. mrun.
  destruct (registerChk env cmd); simpl;
    (eexists; split; [reflexivity|]); simpl;
    rewrite <- !app_assoc; auto.
Qed.

(** The effect of a [register] command that passes validation, names a
    known classification and whose pattern compiles. *)
Lemma register_effect (fuel : nat) (req : dispatcherRequest)
    (cmd : commandBlock) (helpCmd helpText : string) (rest : list string)
    (i : nat) (w : world) :
  validate env (Query req) = None →
  q_Type (Query req) = "command" →
  q_Command (Query req) = Some cmd →
  cmd_Action cmd = "register" →
  registerChk env cmd = None →
  regexpError env (cmd_Data cmd) = None →
  cmd_Array cmd = helpCmd :: helpText :: rest →
  classIndex (cmd_Type cmd) = Some i →
  ∃ w' ar,
    dispatch env fuel req w = Ok Continue w' ∧
    ar_regex ar = CompiledRegexp (cmd_Data cmd) ∧
    ar_source ar = q_Source (Query req) ∧
    ar_id ar = cmd_Id cmd ∧
    ar_helpCmd ar = helpCmd ∧
    ar_help ar = helpText ∧
    (ar_matchNext ar = true ↔ "fallthrough" ∈ cmd_Options cmd) ∧
    activeBuckets (g w') = alter (λ bucket, bucket ++ [ar]) i
                                 (activeBuckets (g w)) ∧
    help (g w') = help (g w) ++
      (if decide (cmd_Type cmd = "unhandled") then []
       else [HelpInfo helpCmd helpText
               (bool_decide (cmd_Type cmd = "noprefix"))
               (bool_decide (cmd_Type cmd = "mention"))]) ∧
    passiveBuckets (g w') = passiveBuckets (g w) ∧
    conf (g w') = conf (g w) ∧
    connMap w' = connMap w ∧
    trace w' = trace w ++
      [Log Debug "Register command received:";
       Log Debug "Active adapter registered:"].
Proof.
  intros Hv Ht Hc Ha Hchk Hre Harr Hcls.
  rewrite (dispatch_command fuel req cmd w Hv Ht Hc).
  rewrite Ha. simpl. unfold register, regexp_Compile.
  rewrite Hchk, Hre, Harr. mrun.
  assert (Hcases : cmd_Type cmd = "prefix" ∧ i = 0 ∨
                   cmd_Type cmd = "noprefix" ∧ i = 1 ∨
                   cmd_Type cmd = "mention" ∧ i = 2 ∨
                   cmd_Type cmd = "unhandled" ∧ i = 3).
  { unfold classIndex in Hcls. repeat case_decide; naive_solver. }
  destruct Hcases as [[Hty ->]|[[Hty ->]|[[Hty ->]|[Hty ->]]]];
    rewrite Hty; simpl;
    (eexists _, (ActiveResponderConfig (CompiledRegexp (cmd_Data cmd))
                   (q_Source (Query req)) (cmd_Id cmd)
                   (matchNextOf (cmd_Options cmd)) helpCmd helpText));
    (split; [reflexivity|]); simpl;
    rewrite <- ?app_assoc;
    split_and!; try reflexivity; try apply matchNextOf_spec;
    rewrite app_nil_r; reflexivity.
Qed.

(** C3: a [register] command that passes validation, names one of the
    four classifications and whose pattern compiles.  The responder is
    bound to the source of the envelope, [matchNext] is set exactly when
    the options contain [fallthrough], and the responder is appended to
    the bucket of its classification and to no other.  A help entry is
    appended for [prefix], [noprefix] (with [noPrefix] set) and [mention]
    (with [mention] set); for [unhandled] the help list is left as it
    was. *)
Theorem register_accepted (fuel : nat) (req : dispatcherRequest)
    (cmd : commandBlock) (helpCmd helpText : string) (rest : list string)
    (i : nat) (w : world) :
  validate env (Query req) = None →
  q_Type (Query req) = "command" →
  q_Command (Query req) = Some cmd →
  cmd_Action cmd = "register" →
  registerChk env cmd = None →
  regexpError env (cmd_Data cmd) = None →
  cmd_Array cmd = helpCmd :: helpText :: rest →
  classIndex (cmd_Type cmd) = Some i →
  ∃ w' ar,
    dispatch env fuel req w = Ok Continue w' ∧
    ar_regex ar = CompiledRegexp (cmd_Data cmd) ∧
    ar_source ar = q_Source (Query req) ∧
    ar_id ar = cmd_Id cmd ∧
    ar_helpCmd ar = helpCmd ∧
    ar_help ar = helpText ∧
    (ar_matchNext ar = true ↔ "fallthrough" ∈ cmd_Options cmd) ∧
    activeBuckets (g w') = alter (λ bucket, bucket ++ [ar]) i
                                 (activeBuckets (g w)) ∧
    help (g w') = help (g w) ++
      (if decide (cmd_Type cmd = "unhandled") then []
       else [HelpInfo helpCmd helpText
               (bool_decide (cmd_Type cmd = "noprefix"))
               (bool_decide (cmd_Type cmd = "mention"))]) ∧
    passiveBuckets (g w') = passiveBuckets (g w) ∧
    conf (g w') = conf (g w) ∧
    connMap w' = connMap w ∧
    trace w' = trace w ++
      [Log Debug "Register command received:";
       Log Debug "Active adapter registered:"].
Proof.
  intros Hv Ht Hc Ha Hchk Hre Harr Hcls.
  exact (register_effect fuel req cmd helpCmd helpText rest i w
           Hv Ht Hc Ha Hchk Hre Harr Hcls).
Qed.


(** C1: an [engage] command that passes the credential check but reaches
    the dispatcher without a reply channel, as [serve] submits every
    envelope it reads after the handshake.  The id is chosen and
    installed as for any accepted engagement, but the send of the id on
    the nil channel never completes: the dispatcher stays blocked there,
    nothing is sent on a reply channel and no [proceed] command is
    written. *)
Theorem engage_accepted_without_reply_channel (fuel : nat)
    (req : dispatcherRequest) (cmd : commandBlock) (enc : encoder)
    (w : world) (j : nat) :
  validate env (Query req) = None →
  q_Type (Query req) = "command" →
  q_Command (Query req) = Some cmd →
  cmd_Action cmd = "engage" →
  Encoder req = Some enc →
  EngageResp req = None →
  engageChk env cmd (q_Source (Query req)) (conf_Secret (conf (g w))) = None →
  j < fuel →
  connMap w !! generateId (randReader env (reads w + j)) = None →
  ∃ id w' warn,
    dispatch env fuel req w = Halted Blocked w' ∧
    connMap w !! id = None ∧
    connMap w' = <[id := enc]> (connMap w) ∧
    trace w' = trace w ++ warn ++ [Log Info "Engagement accepted: "] ∧
    Forall (λ ev, ∃ text, ev = Log Warn text) warn ∧
    existsb isEncode (trace w') = existsb isEncode (trace w).
Proof.
  intros Hv Ht Hc Ha He Hr Hchk Hfuel Hfree.
  rewrite (dispatch_command fuel req cmd w Hv Ht Hc).
  rewrite decide_True by exact Ha.
  unfold engage. rewrite He, Hr.
  unfold bind at 1. unfold getGlobals. rewrite Hchk.
  match goal with
  | |- context [bind _ (λ id0, bind (collisionLoop _ _ id0) ?k) _] =>
      destruct (chooseId fuel (q_Source (Query req)) w j k Hfuel Hfree)
        as (id & w1 & -> & Hg & Hm & Htr & Hfr & Hne & Hsame & Hgen)
  end.
  exists id. mrun. rewrite Hm, Htr.
  destruct (decide (id ≠ q_Source (Query req) ∧ q_Source (Query req) ≠ ""));
    simpl.
  - eexists _, [Log Warn _]. split; [reflexivity|]. simpl.
    split_and!; try assumption; try reflexivity.
    + rewrite <- !app_assoc. reflexivity.
    + repeat constructor. eauto.
    + rewrite !existsb_app. simpl. rewrite !orb_false_r. reflexivity.
  - eexists _, []. split; [reflexivity|]. simpl.
    split_and!; try assumption; try reflexivity.
    + constructor.
    + rewrite !existsb_app. simpl. rewrite !orb_false_r. reflexivity.
Qed.

(** C5: an [engage] command that fails the credential check and reaches
    the dispatcher without a reply channel.  The table is left as it
    was, but the send of the empty id on the nil channel never
    completes: the dispatcher stays blocked there and no [terminate]
    command is written. *)
Theorem engage_rejected_without_reply_channel (fuel : nat)
    (req : dispatcherRequest) (cmd : commandBlock) (enc : encoder)
    (w : world) (reason : string) :
  validate env (Query req) = None →
  q_Type (Query req) = "command" →
  q_Command (Query req) = Some cmd →
  cmd_Action cmd = "engage" →
  Encoder req = Some enc →
  EngageResp req = None →
  engageChk env cmd (q_Source (Query req)) (conf_Secret (conf (g w)))
    = Some reason →
  ∃ w',
    dispatch env fuel req w = Halted Blocked w' ∧
    connMap w' = connMap w ∧
    g w' = g w ∧
    trace w' = trace w ++ [Log Error "Invalid engagement request"].
Proof.
  intros Hv Ht Hc Ha He Hr Hchk.
  rewrite (dispatch_command fuel req cmd w Hv Ht Hc).
  rewrite decide_True by exact Ha.
  unfold engage. rewrite He, Hr.
  unfold bind at 1. unfold getGlobals. rewrite Hchk. mrun.
  eexists. split; [reflexivity|]. auto.
Qed.

End DispatcherFacts.

(** ** The connection loop *)

Section ServeFacts.

Variable env : collaborators.


(** What [serve] hands to the dispatcher after the handshake carries the
    connection's encoder and no reply channel; in particular an adapter's
    validated [engage] command goes through, with its [to] cleared. *)
Lemma serve_forwards_engage (enc : encoder) (resp : chan) (reply : string)
    (st : connState) (q : query) (cmd : commandBlock) :
  sv_id st ≠ "" →
  sv_isAdapter st = true →
  validate env q = None →
  q_Type q = "command" →
  q_Command q = Some cmd →
  cmd_Action cmd = "engage" →
  serveBody env enc resp reply st (Decoded q) =
    ServeStep
      [Submit (DispatcherRequest (setTo (setSource q (sv_id st)) "")
                 (Some enc) None)]
      Continue st.
Proof.
  intros Hid Had Hv Ht Hc Ha. unfold serveBody.
  rewrite decide_False by exact Hid.
  unfold forward, notInfoCommand, isRegisterCommand.
  rewrite Hv, Had. simpl. rewrite Ht, Hc. simpl. rewrite Ha.
  rewrite bool_decide_eq_true_2 by discriminate. simpl.
  rewrite Ht, Hc. simpl.
  rewrite Ha, bool_decide_eq_false_2 by discriminate. reflexivity.
Qed.

(** X29: how [isAdapter] gets its value: the pass that completes the
    handshake sets it exactly when the first command has type [adapter], and no
    later pass changes the connection state. *)
Lemma serve_handshake_sets_isAdapter (enc : encoder) (resp : chan)
    (reply : string) (q : query) (cmd : commandBlock)
    (evs : list serveEvent) (st : connState) :
  q_Command q = Some cmd →
  serveBody env enc resp reply (ConnState "" false) (Decoded q)
    = ServeStep evs Continue st →
  sv_id st = reply ∧ reply ≠ "" ∧
  (sv_isAdapter st = true ↔ cmd_Type cmd = "adapter").
Proof.
  intros Hc. unfold serveBody, initialize. simpl. rewrite Hc.
  destruct (checkEngagement env q); [discriminate|].
  destruct (decide (reply = "")) as [He|He]; [discriminate|].
  intros Hstep. injection Hstep as _ <-. simpl.
  split; [reflexivity|]. split; [exact He|].
  destruct (decide (cmd_Type cmd = "adapter")); split; auto; discriminate.
Qed.

Lemma serve_keeps_state (enc : encoder) (resp : chan) (reply : string)
    (st st' : connState) (q : query) (evs : list serveEvent) (c : ctl) :
  sv_id st ≠ "" →
  serveBody env enc resp reply st (Decoded q) = ServeStep evs c st' →
  st' = st ∧ c = Continue.
Proof.
  intros Hid. unfold serveBody. rewrite decide_False by exact Hid.
  unfold forward.
  destruct (validate env q); [intros [= _ <- <-]; auto|].
  destruct (sv_isAdapter st).
  - destruct (notInfoCommand _) as [clear|]; [|discriminate].
    destruct (isRegisterCommand _) as [[|]|]; [| |discriminate];
      intros [= _ <- <-]; auto.
  - repeat case_decide; intros [= _ <- <-]; auto.
Qed.

End ServeFacts.

(** ** Start-up *)

Section StartupFacts.

Variable env : collaborators.

Lemma compilePatterns_ok (patterns : list string) :
  ∀ (acc : list Regexp) (w : world),
    forallb (compiles env) patterns = true →
    compilePatterns env patterns acc w
      = Ok (acc ++ (CompiledRegexp <$> patterns)) w.
Proof.
  induction patterns as [|p ps IH]; intros acc w Hall; simpl.
  - rewrite app_nil_r. reflexivity.
  - simpl in Hall. apply andb_true_iff in Hall as [Hp Hps].
    unfold regexp_Compile. unfold compiles in Hp.
    destruct (regexpError env p); [discriminate|].
    rewrite IH by exact Hps. rewrite <- app_assoc. reflexivity.
Qed.

Lemma compilePatterns_fatal (patterns : list string) :
  ∀ (acc : list Regexp) (w : world),
    forallb (compiles env) patterns = false →
    ∃ w', compilePatterns env patterns acc w = Halted Fatal w' ∧ g w' = g w.
Proof.
  induction patterns as [|p ps IH]; intros acc w Hall; simpl.
  - discriminate.
  - simpl in Hall. unfold regexp_Compile. unfold compiles in Hall at 1.
    destruct (regexpError env p).
    + unfold fatal. mrun. eauto.
    + simpl in Hall. apply IH. exact Hall.
Qed.

Lemma scanArgs_ok (args : list string) :
  ∀ (i : nat) (substitute roomParam : gmap nat bool) (w : world),
    ∃ maps w',
      scanArgs i args substitute roomParam w = Ok maps w' ∧
      g w' = g w ∧ connMap w' = connMap w.
Proof.
  induction args as [|arg rest IH]; intros i substitute roomParam w; simpl.
  - unfold ret. eauto.
  - mrun.
    destruct (subRegex_MatchString arg), (roomRegex_MatchString arg); simpl;
      match goal with
      | |- context [scanArgs ?i ?a ?s ?r ?w0] =>
          destruct (IH i s r w0) as (maps & w' & -> & Hg & Hm)
      end; eauto.
Qed.

Lemma pushHelpCmds_ok (cmds : list string) (msg : string)
    (noPrefix mention : bool) :
  ∀ w : world,
    ∃ w',
      pushHelpCmds cmds msg noPrefix mention w = Ok tt w' ∧
      passiveBuckets (g w') = passiveBuckets (g w) ∧
      activeBuckets (g w') = activeBuckets (g w) ∧
      conf (g w') = conf (g w) ∧
      connMap w' = connMap w ∧
      help (g w') = help (g w) ++
        ((λ cmd, HelpInfo cmd msg noPrefix mention) <$> cmds).
Proof.
  induction cmds as [|cmd rest IH]; intros w; simpl.
  - unfold ret. eexists. split; [reflexivity|].
    rewrite app_nil_r. auto.
  - mrun.
    match goal with
    | |- context [pushHelpCmds _ _ _ _ ?w0] =>
        destruct (IH w0) as (w' & -> & Hp & Ha & Hc & Hm & Hh)
    end.
    eexists. split; [reflexivity|]. simpl in *.
    rewrite Hh, <- app_assoc. auto.
Qed.

Lemma passiveFault_false (pr : passiveResponderConfig) :
  passiveFault env pr = false →
  length (pr_Match pr) ≠ 0 ∧
  forallb (compiles env) (pr_Match pr) = true ∧
  forallb (compiles env) (pr_MentionMatch pr) = true ∧
  pr_Cmd pr ≠ "" ∧
  pr_Help pr ≠ "" ∧
  length (pr_HelpCmds pr) ≠ 0.
Proof.
  unfold passiveFault. rewrite !orb_false_iff, !negb_false_iff.
  intros (((((Hm & Hc) & Hmc) & Hcmd) & Hh) & Hhc).
  apply Nat.eqb_neq in Hm, Hhc.
  apply bool_decide_eq_false in Hcmd, Hh. split_and!; assumption.
Qed.

(** A passive responder without fault is compiled, pushed on the prefix
    or on the no-prefix list according to its flag, pushed on the mention
    list as well when it has mention patterns, and contributes its help
    entries. *)
Lemma compilePassive_ok (pr : passiveResponderConfig) (w : world) :
  passiveFault env pr = false →
  ∃ c w',
    compilePassive env pr w = Ok tt w' ∧
    compiledFrom pr c ∧
    prefixPResponders (g w') =
      prefixPResponders (g w) ++ (if pr_NoPrefix c then [] else [c]) ∧
    noPrefixPResponders (g w') =
      noPrefixPResponders (g w) ++ (if pr_NoPrefix c then [c] else []) ∧
    mentionPResponders (g w') =
      mentionPResponders (g w) ++ (if hasMention c then [c] else []) ∧
    unhandledPResponders (g w') = unhandledPResponders (g w) ∧
    activeBuckets (g w') = activeBuckets (g w) ∧
    conf (g w') = conf (g w) ∧
    connMap w' = connMap w ∧
    help (g w') = help (g w) ++ helpOf pr.
Proof.
  intros Hok.
  apply passiveFault_false in Hok as (Hm & Hc & Hmc & Hcmd & Hh & Hhc).
  unfold compilePassive. mrun.
  rewrite decide_False by exact Hm. simpl.
  rewrite compilePatterns_ok by exact Hc. simpl.
  rewrite compilePatterns_ok by exact Hmc. simpl.
  rewrite decide_False by (rewrite length_fmap; exact Hm). simpl.
  rewrite decide_False by exact Hcmd. simpl.
  match goal with
  | |- context [scanArgs ?i ?a ?s ?r ?w0] =>
      destruct (scanArgs_ok a i s r w0) as (maps & w1 & -> & Hg1 & Hm1)
  end.
  set (c := setCompiled pr (CompiledRegexp <$> pr_Match pr)
              (CompiledRegexp <$> pr_MentionMatch pr) maps.1 maps.2).
  exists c.
  rewrite (decide_False (P := pr_Help pr = "" ∨ length (pr_HelpCmds pr) = 0))
    by tauto.
  assert (Hcf : compiledFrom pr c) by (eexists _, _; reflexivity).
  unfold helpOf, hasMention. subst c. simpl in *.
  destruct (pr_NoPrefix pr), (pr_MentionMatch pr) as [|mp mps]; simpl;
    match goal with
    | |- context [pushHelpCmds ?l ?m ?a ?b ?w0] =>
        destruct (pushHelpCmds_ok l m a b w0)
          as (w2 & -> & Hp2 & Ha2 & Hc2 & Hm2 & Hh2)
    end;
    match goal with
    | |- context [pushHelpCmds ?l ?m ?a ?b ?w0] =>
        destruct (pushHelpCmds_ok l m a b w0)
          as (w3 & -> & Hp3 & Ha3 & Hc3 & Hm3 & Hh3)
    end;
    exists w3; (split; [reflexivity|]); (split; [exact Hcf|]);
    unfold passiveBuckets in Hp2, Hp3; simpl in *;
    rewrite Hg1 in *; simplify_eq;
    rewrite ?app_nil_r, ?app_assoc; split_and!; try congruence;
    unfold activeBuckets; congruence.
Qed.

(** A passive responder with a fault stops the process. *)
Lemma compilePassive_fatal (pr : passiveResponderConfig) (w : world) :
  passiveFault env pr = true →
  ∃ w', compilePassive env pr w = Halted Fatal w'.
Proof.
  intros Hfault. unfold compilePassive. mrun.
  destruct (decide (length (pr_Match pr) = 0)) as [Hlen|Hlen];
    [unfold fatal; mrun; eauto|]. simpl.
  destruct (forallb (compiles env) (pr_Match pr)) eqn:Hc; cycle 1.
  { match goal with
    | |- context [compilePatterns env ?ps ?acc ?w0] =>
        destruct (compilePatterns_fatal ps acc w0 Hc) as (w1 & -> & _)
    end. eauto. }
  rewrite compilePatterns_ok by exact Hc. simpl.
  destruct (forallb (compiles env) (pr_MentionMatch pr)) eqn:Hmc; cycle 1.
  { match goal with
    | |- context [compilePatterns env ?ps ?acc ?w0] =>
        destruct (compilePatterns_fatal ps acc w0 Hmc) as (w1 & -> & _)
    end. eauto. }
  rewrite compilePatterns_ok by exact Hmc. simpl.
  rewrite decide_False by (rewrite length_fmap; exact Hlen). simpl.
  destruct (decide (pr_Cmd pr = "")) as [Hcmd|Hcmd];
    [unfold fatal; mrun; eauto|]. simpl.
  match goal with
  | |- context [scanArgs ?i ?a ?s ?r ?w0] =>
      destruct (scanArgs_ok a i s r w0) as (maps & w1 & -> & Hg1 & Hm1)
  end.
  assert (Hhelp : pr_Help pr = "" ∨ length (pr_HelpCmds pr) = 0).
  { unfold passiveFault in Hfault. rewrite Hc, Hmc in Hfault.
    apply Nat.eqb_neq in Hlen. rewrite Hlen in Hfault.
    rewrite (bool_decide_eq_false_2 _ Hcmd) in Hfault. simpl in Hfault.
    apply orb_true_iff in Hfault as [Hh|Hh].
    - left. apply bool_decide_eq_true in Hh. exact Hh.
    - right. apply Nat.eqb_eq in Hh. exact Hh. }
  rewrite (decide_True (P := pr_Help pr = "" ∨ length (pr_HelpCmds pr) = 0))
    by exact Hhelp.
  unfold fatal. mrun.
  destruct (pr_NoPrefix pr), (pr_MentionMatch pr); simpl; eauto.
Qed.

Lemma compilePassives_ok (prs : list passiveResponderConfig) :
  ∀ w : world,
    existsb (passiveFault env) prs = false →
    ∃ cs w',
      compilePassives env prs w = Ok tt w' ∧
      Forall2 compiledFrom prs cs ∧
      prefixPResponders (g w') =
        prefixPResponders (g w) ++ List.filter (λ c, negb (pr_NoPrefix c)) cs ∧
      noPrefixPResponders (g w') =
        noPrefixPResponders (g w) ++ List.filter pr_NoPrefix cs ∧
      mentionPResponders (g w') =
        mentionPResponders (g w) ++ List.filter hasMention cs ∧
      unhandledPResponders (g w') = unhandledPResponders (g w) ∧
      activeBuckets (g w') = activeBuckets (g w) ∧
      conf (g w') = conf (g w) ∧
      connMap w' = connMap w ∧
      help (g w') = help (g w) ++ concat (helpOf <$> prs).
Proof.
  induction prs as [|pr rest IH]; intros w Hok; simpl.
  - exists [], w. unfold ret. simpl. rewrite !app_nil_r.
    split_and!; auto.
  - simpl in Hok. apply orb_false_iff in Hok as [Hpr Hrest].
    destruct (compilePassive_ok pr w Hpr)
      as (c & w1 & Hrun & Hcf & Hp & Hn & Hm & Hu & Ha & Hc & Hk & Hh).
    destruct (IH w1 Hrest)
      as (cs & w2 & Hrun' & Hcf' & Hp' & Hn' & Hm' & Hu' & Ha' & Hc' & Hk' & Hh').
    exists (c :: cs), w2. unfold bind. rewrite Hrun, Hrun'.
    split; [reflexivity|]. split; [constructor; assumption|].
    rewrite Hp', Hn', Hm', Hu', Ha', Hc', Hk', Hh', Hp, Hn, Hm, Hu, Ha, Hc, Hk, Hh.
    simpl. destruct (pr_NoPrefix c), (hasMention c); simpl;
      rewrite <- ?app_assoc, ?app_nil_r; split_and!; reflexivity.
Qed.

Lemma compilePassives_fatal (prs : list passiveResponderConfig) :
  ∀ w : world,
    existsb (passiveFault env) prs = true →
    ∃ w', compilePassives env prs w = Halted Fatal w'.
Proof.
  induction prs as [|pr rest IH]; intros w Hbad; simpl in *; [discriminate|].
  unfold bind.
  destruct (passiveFault env pr) eqn:Hpr.
  - destruct (compilePassive_fatal pr w Hpr) as (w1 & ->). eauto.
  - destruct (compilePassive_ok pr w Hpr) as (c & w1 & -> & _).
    apply IH. exact Hbad.
Qed.

(** The four ways [startup] can end. *)
Lemma startup_bad_help (w : world) :
  compiles env (helpPattern (conf (g w))) = false →
  ∃ w', startup env w = Halted Fatal w'.
Proof.
  intros Hbad. unfold startup, helpPattern in *. mrun.
  unfold regexp_Compile. unfold compiles in Hbad.
  destruct (decide (conf_Help (conf (g w)) = "")); simpl in *;
    destruct (regexpError env _); try discriminate;
    unfold fatal; mrun; eauto.
Qed.

Lemma startup_good_help (w : world) :
  compiles env (helpPattern (conf (g w))) = true →
  ∃ w0,
    g w0 = freshGlobals (conf (g w0)) ∧
    conf_Responders (conf (g w0)) = conf_Responders (conf (g w)) ∧
    startup env w =
      bind (deref (conf_Responders (conf (g w))))
           (λ responders, compilePassives env (Passive responders)) w0.
Proof.
  intros Hgood. unfold startup, helpPattern in *. mrun.
  unfold regexp_Compile. unfold compiles in Hgood.
  destruct (decide (conf_Help (conf (g w)) = "")); simpl in *;
    destruct (regexpError env _); try discriminate;
    simpl; eexists; (split; [|split; [|reflexivity]]); reflexivity.
Qed.

Lemma startup_outcome (w : world) :
  if startupFault env (conf (g w))
  then ∃ w', startup env w = Halted Fatal w'
  else match conf_Responders (conf (g w)) with
       | None => ∃ w', startup env w = Halted Panic w'
       | Some responders =>
           ∃ cs w',
             startup env w = Ok tt w' ∧
             Forall2 compiledFrom (Passive responders) cs ∧
             prefixPResponders (g w') =
               List.filter (λ c, negb (pr_NoPrefix c)) cs ∧
             noPrefixPResponders (g w') = List.filter pr_NoPrefix cs ∧
             mentionPResponders (g w') = List.filter hasMention cs ∧
             unhandledPResponders (g w') = [] ∧
             activeBuckets (g w') = [[]; []; []; []] ∧
             help (g w') = concat (helpOf <$> Passive responders)
       end.
Proof.
  unfold startupFault.
  destruct (compiles env (helpPattern (conf (g w)))) eqn:Hhelp; simpl;
    [|apply startup_bad_help; exact Hhelp].
  destruct (startup_good_help w Hhelp) as (w0 & Hfresh & Hresp & ->).
  destruct (conf_Responders (conf (g w))) as [responders|]; mrun; [|eauto].
  destruct (existsb (passiveFault env) (Passive responders)) eqn:Hfault.
  - apply compilePassives_fatal. exact Hfault.
  - destruct (compilePassives_ok (Passive responders) w0 Hfault)
      as (cs & w' & Hrun & Hcf & Hp & Hn & Hm & Hu & Ha & Hc & Hk & Hh).
    exists cs, w'. rewrite Hfresh in Hp, Hn, Hm, Hu, Ha, Hh. simpl in *.
    split_and!; assumption.
Qed.


(** C7: bucket membership as the code establishes it.  After a
    completed start-up every passive responder is, in configuration
    order, on exactly one of the prefix and no-prefix lists, chosen by
    its [noprefix] flag; it is on the mention list as well exactly when
    it has mention patterns; nothing is ever on the unhandled passive
    list.  A valid [register] command appends its responder to the
    active bucket of its classification and leaves every other bucket,
    active or passive, as it was. *)
Theorem responders_bucket_membership :
  (∀ (w w' : world) (responders : responderConfig),
     conf_Responders (conf (g w)) = Some responders →
     startup env w = Ok tt w' →
     ∃ cs,
       Forall2 compiledFrom (Passive responders) cs ∧
       prefixPResponders (g w') = List.filter (λ c, negb (pr_NoPrefix c)) cs ∧
       noPrefixPResponders (g w') = List.filter pr_NoPrefix cs ∧
       mentionPResponders (g w') = List.filter hasMention cs ∧
       unhandledPResponders (g w') = []) ∧
  (∀ (fuel : nat) (req : dispatcherRequest) (cmd : commandBlock)
     (helpCmd helpText : string) (rest : list string) (i : nat) (w : world),
     validate env (Query req) = None →
     q_Type (Query req) = "command" →
     q_Command (Query req) = Some cmd →
     cmd_Action cmd = "register" →
     registerChk env cmd = None →
     regexpError env (cmd_Data cmd) = None →
     cmd_Array cmd = helpCmd :: helpText :: rest →
     classIndex (cmd_Type cmd) = Some i →
     ∃ w' ar,
       dispatch env fuel req w = Ok Continue w' ∧
       ar_source ar = q_Source (Query req) ∧
       ar_id ar = cmd_Id cmd ∧
       activeBuckets (g w') = alter (λ bucket, bucket ++ [ar]) i
                                    (activeBuckets (g w)) ∧
       passiveBuckets (g w') = passiveBuckets (g w)).
Proof.
  split.
  - intros w w' responders Hresp Hrun.
    pose proof (startup_outcome w) as Hout.
    destruct (startupFault env (conf (g w))).
    + destruct Hout as (w1 & Hhalt). congruence.
    + rewrite Hresp in Hout.
      destruct Hout as (cs & w1 & Hok & Hcf & Hp & Hn & Hm & Hu & _).
      assert (w1 = w') as -> by congruence.
      exists cs. split_and!; assumption.
  - intros fuel req cmd helpCmd helpText rest i w Hv Ht Hc Ha Hchk Hre Harr Hcls.
    destruct (register_effect env fuel req cmd helpCmd helpText rest i w
                Hv Ht Hc Ha Hchk Hre Harr Hcls)
      as (w' & ar & Hrun & _ & Hsrc & Hid & _ & _ & _ & Hact & _ & Hpas & _).
    exists w', ar. split_and!; assumption.
Qed.

End StartupFacts.

(** ** More on [generateId] *)

Lemma unhex_hexByte (b : byte) (rest : list ascii) :
  unhex (hexByte b ++ rest) =
    match unhex rest with
    | Some bs => Some (b :: bs)
    | None => None
    end.
Proof. destruct (unhex rest) eqn:Hrest; destruct b; simpl; rewrite Hrest; reflexivity. Qed.

Lemma unhex_hexBytes (bs : list byte) :
  unhex (concat (map hexByte bs)) = Some bs.
Proof.
  induction bs as [|b bs IH]; [reflexivity|].
  cbn [map concat]. rewrite unhex_hexByte, IH. reflexivity.
Qed.

Lemma string_of_list_ascii_app (a b : list ascii) :
  String.string_of_list_ascii (a ++ b)
  = String.string_of_list_ascii a +:+ String.string_of_list_ascii b.
Proof. induction a as [|c a IH]; simpl; [reflexivity|]. rewrite IH. reflexivity. Qed.

Lemma sprintf_x_app (a b : list byte) :
  sprintf_x (a ++ b) = sprintf_x a +:+ sprintf_x b.
Proof.
  unfold sprintf_x. rewrite map_app, concat_app.
  apply string_of_list_ascii_app.
Qed.

Lemma sprintf_x_zero_bytes (n : nat) :
  sprintf_x (replicate n x00%byte) = zeros (2 * n).
Proof.
  unfold sprintf_x, zeros. f_equal.
  induction n as [|n IH]; [reflexivity|].
  replace (2 * S n) with (S (S (2 * n))) by lia.
  cbn [replicate map concat]. rewrite IH. reflexivity.
Qed.

(** X8: formatting the buffer as hexadecimal loses nothing: the id
    reads back as the eight bytes of the buffer, so two calls return the
    same id only when their buffers are equal; when the reader delivers
    eight bytes the buffer is exactly those bytes, and bytes beyond the
    eighth never matter. *)
Theorem generateId_hex_round_trip (delivered : list byte) :
  unhex (String.list_ascii_of_string (generateId delivered))
    = Some (readFull 8 delivered) ∧
  (∀ delivered', generateId delivered = generateId delivered' →
                 readFull 8 delivered = readFull 8 delivered') ∧
  (length delivered = 8 → readFull 8 delivered = delivered) ∧
  generateId (take 8 delivered) = generateId delivered.
Proof.
  assert (Hback : ∀ d, unhex (String.list_ascii_of_string (generateId d))
                       = Some (readFull 8 d)).
  { intros d. unfold generateId, sprintf_x.
    rewrite String.list_ascii_of_string_of_list_ascii.
    apply unhex_hexBytes. }
  split; [apply Hback|]. split; [|split].
  - intros delivered' Heq.
    pose proof (Hback delivered) as H1. rewrite Heq, Hback in H1.
    congruence.
  - intros Hlen. unfold readFull. rewrite take_app_length'; auto.
  - unfold generateId, readFull. f_equal.
    destruct (decide (length delivered ≤ 8)) as [Hle|Hgt].
    + rewrite (take_ge delivered) by exact Hle. reflexivity.
    + rewrite !take_app_le by (rewrite ?length_take; lia).
      rewrite take_take, Nat.min_id. reflexivity.
Qed.

(** X9: a short read shows in the id.  When the reader delivers fewer
    than eight bytes (the error being ignored) the id is the hexadecimal
    of the bytes read followed by zeros, so a reader that delivers
    nothing yields the same id at every call; bytes beyond the eighth
    never matter. *)
Theorem generateId_short_read (delivered : list byte) :
  length delivered ≤ 8 →
  generateId delivered
    = sprintf_x delivered +:+ zeros (2 * (8 - length delivered)) ∧
  (delivered = [] → generateId delivered = "0000000000000000").
Proof.
  intros Hlen. split.
  - unfold generateId, readFull.
    rewrite take_app_ge by exact Hlen.
    rewrite take_replicate, Nat.min_l by lia.
    rewrite sprintf_x_app, sprintf_x_zero_bytes. reflexivity.
  - intros ->. reflexivity.
Qed.

(** ** More on the dispatcher *)

Lemma registriesGrow_refl (gl : globals) : registriesGrow gl gl.
Proof. unfold registriesGrow. split_and!; reflexivity. Qed.

Lemma registriesGrow_trans (gl1 gl2 gl3 : globals) :
  registriesGrow gl1 gl2 → registriesGrow gl2 gl3 → registriesGrow gl1 gl3.
Proof.
  unfold registriesGrow.
  intros (Hc & Hp & Hh & H1 & H2 & H3 & H4) (Hc' & Hp' & Hh' & H1' & H2' & H3' & H4').
  split_and!; try congruence; etrans; eassumption.
Qed.

(** Closes a goal about the writes among events none of which is one. *)
Ltac no_encode H :=
  let e := fresh "e" in
  let q := fresh "q" in
  let Hin := fresh "Hin" in
  intros e q Hin; exfalso; refine (H _ _ e q Hin); reflexivity.

(** Closes a goal about the workers started among events none of which
    starts one. *)
Ltac no_handoff H :=
  match goal with
  | |- length (List.filter isHandOff ?evs) ≤ 1 ∧ _ =>
      let Hl := fresh "Hl" in
      let Hc := fresh "Hc" in
      let Hm := fresh "Hm" in
      destruct (H evs eq_refl) as (Hl & Hc & Hm);
      split_and!;
      [exact Hl
      |intros ? ? ?; exfalso; eauto
      |intros ? ? ?; exfalso; eauto]
  end.

Section DispatcherMore.

Variable env : collaborators.

(** What one pass of the loop body leaves untouched, whatever the
    request and however the pass ends. *)
Lemma dispatch_footprint (fuel : nat) (req : dispatcherRequest) (w : world) :
  match finalWorld (dispatch env fuel req w) with
  | Some w' =>
      registriesGrow (g w) (g w') ∧
      trace w `prefix_of` trace w' ∧
      (isCommandWith "engage" (Query req) = false →
       isCommandWith "disengage" (Query req) = false →
       connMap w' = connMap w) ∧
      (isCommandWith "register" (Query req) = false → g w' = g w)
  | None => True
  end.
Proof.
  unfold dispatch, isCommandWith.
  destruct (validate env (Query req)).
  { mrun. split_and!; auto using registriesGrow_refl.
    rewrite <- app_assoc. apply prefix_app_r. reflexivity. }
  destruct (decide (q_Type (Query req) = "command")) as [Ht|Ht].
  - rewrite (bool_decide_eq_true_2 _ Ht). simpl.
    unfold bind at 1. destruct (q_Command (Query req)) as [cmd|];
      [|mrun; split_and!; auto using registriesGrow_refl]. simpl.
    destruct (decide (cmd_Action cmd = "engage")) as [Ha|Ha];
      [|destruct (decide (cmd_Action cmd = "disengage")) as [Hd|Hd];
        [|destruct (decide (cmd_Action cmd = "register")) as [Hr|Hr]]].
    + rewrite (bool_decide_eq_true_2 _ Ha).
      unfold engage. destruct (Encoder req) as [enc|].
      2:{ mrun. split_and!; auto using registriesGrow_refl; try discriminate.
          rewrite <- app_assoc. apply prefix_app_r. reflexivity. }
      unfold bind at 1. unfold getGlobals.
      destruct (engageChk env cmd _ _) as [reason|].
      * destruct (EngageResp req); mrun;
          (split_and!; auto using registriesGrow_refl; try discriminate);
          rewrite <- ?app_assoc; apply prefix_app_r; reflexivity.
      * match goal with
        | |- context [bind _ (λ id0, bind (collisionLoop _ _ id0) ?k) _] =>
            destruct (chooseId_cases env fuel (q_Source (Query req)) w k)
              as [->|(id & w1 & -> & Hg & Hm & Htr & Hfr & Hne)]
        end; [exact I|].
        destruct (EngageResp req); mrun; rewrite Hg, Htr;
          case_decide; simpl;
          (split_and!; auto using registriesGrow_refl; try discriminate);
          rewrite <- ?app_assoc; apply prefix_app_r; reflexivity.
    + rewrite (bool_decide_eq_true_2 _ Hd).
      unfold disengage. mrun. case_decide; simpl;
        (split_and!; auto using registriesGrow_refl; try discriminate);
        apply prefix_app_r; reflexivity.
    + rewrite (bool_decide_eq_true_2 _ Hr).
      rewrite !bool_decide_eq_false_2 by congruence.
      unfold register. mrun.
      destruct (registerChk env cmd).
      { simpl. split_and!; auto using registriesGrow_refl; try discriminate.
        rewrite <- app_assoc. apply prefix_app_r. reflexivity. }
      destruct (regexp_Compile env (cmd_Data cmd)).
      2:{ simpl. split_and!; auto using registriesGrow_refl; try discriminate.
          rewrite <- app_assoc. apply prefix_app_r. reflexivity. }
      destruct (cmd_Array cmd) as [|a0 [|a1 rest]]; simpl;
        [split_and!; auto using registriesGrow_refl; try discriminate;
         apply prefix_app_r; reflexivity..|].
      unfold registriesGrow, passiveBuckets.
      repeat case_decide; simpl;
        (split_and!; try reflexivity; try discriminate;
         try (apply prefix_app_r; reflexivity);
         rewrite <- ?app_assoc; apply prefix_app_r; reflexivity).
    + rewrite !bool_decide_eq_false_2 by assumption.
      mrun. split_and!; auto using registriesGrow_refl.
      apply prefix_app_r. reflexivity.
  - rewrite (bool_decide_eq_false_2 _ Ht). simpl.
    destruct (decide (q_Type (Query req) = "message")) as [Hm|Hm].
    2:{ mrun. split_and!; auto using registriesGrow_refl.
        apply prefix_app_r. reflexivity. }
    unfold routeMessage.
    case_decide; destruct (q_Message (Query req)); mrun;
      try destruct (connMap w !! q_To (Query req)); simpl;
      (split_and!; auto using registriesGrow_refl);
      rewrite <- ?app_assoc; apply prefix_app_r; reflexivity.
Qed.

Lemma dispatcherLoop_footprint (fuel : nat)
    (requests : list dispatcherRequest) :
  ∀ w : world,
    match finalWorld (dispatcherLoop env fuel requests w) with
    | Some w' =>
        registriesGrow (g w) (g w') ∧
        trace w `prefix_of` trace w' ∧
        (Forall (λ req, isCommandWith "engage" (Query req) = false ∧
                        isCommandWith "disengage" (Query req) = false)
                requests →
         connMap w' = connMap w) ∧
        (Forall (λ req, isCommandWith "register" (Query req) = false)
                requests →
         g w' = g w)
    | None => True
    end.
Proof.
  induction requests as [|req rest IH]; intros w; simpl.
  - split_and!; auto using registriesGrow_refl.
  - unfold bind.
    pose proof (dispatch_footprint fuel req w) as Hstep.
    pose proof (dispatch_outcome env fuel req w) as Hctl.
    destruct (dispatch env fuel req w) as [c w1|h w1|]; simpl in *;
      [| |exact I].
    + destruct Hctl as (-> & _). destruct Hstep as (Hg & Ht & Hm & Hr).
      specialize (IH w1).
      destruct (finalWorld (dispatcherLoop env fuel rest w1)) as [w2|];
        [|exact I].
      destruct IH as (Hg' & Ht' & Hm' & Hr').
      split_and!.
      * eapply registriesGrow_trans; eassumption.
      * etrans; eassumption.
      * intros Hall. apply Forall_cons in Hall as [[He Hd] Hall].
        rewrite (Hm' Hall). auto.
      * intros Hall. apply Forall_cons in Hall as [Hreg Hall].
        rewrite (Hr' Hall). auto.
    + destruct Hstep as (Hg & Ht & Hm & Hr). split_and!; auto.
      * intros Hall. apply Forall_cons in Hall as [[He Hd] Hall]. auto.
      * intros Hall. apply Forall_cons in Hall as [Hreg Hall]. auto.
Qed.

(** X1: along any run of the dispatcher the registries only grow: the
    configuration and the passive lists stay as start-up left them, and
    the help list and each of the four active buckets are extended at
    the end, never shortened, reordered or pruned (not even when the
    registering connection disengages).  The trace only grows too. *)
Theorem dispatcher_registries_append_only (fuel : nat)
    (requests : list dispatcherRequest) (w w' : world) :
  finalWorld (dispatcher env fuel requests w) = Some w' →
  registriesGrow (g w) (g w') ∧ trace w `prefix_of` trace w'.
Proof.
  intros Hfin. unfold dispatcher, bind, putConnMap in Hfin.
  set (w0 := World (g w) ∅ (reads w) (trace w)) in Hfin.
  pose proof (dispatcherLoop_footprint fuel requests w0) as Hrun.
  rewrite Hfin in Hrun. destruct Hrun as (Hg & Ht & _). auto.
Qed.

(** X2: the connection table changes only through [engage] and
    [disengage] commands: a run of the dispatcher that receives none
    ends with the empty table it started with. *)
Theorem table_changes_only_on_engage_disengage (fuel : nat)
    (requests : list dispatcherRequest) (w w' : world) :
  finalWorld (dispatcher env fuel requests w) = Some w' →
  Forall (λ req, isCommandWith "engage" (Query req) = false ∧
                 isCommandWith "disengage" (Query req) = false) requests →
  connMap w' = ∅.
Proof.
  intros Hfin Hall. unfold dispatcher, bind, putConnMap in Hfin.
  set (w0 := World (g w) ∅ (reads w) (trace w)) in Hfin.
  pose proof (dispatcherLoop_footprint fuel requests w0) as Hrun.
  rewrite Hfin in Hrun. destruct Hrun as (_ & _ & Hm & _).
  rewrite (Hm Hall). reflexivity.
Qed.

(** X3: the registries change only through [register] commands: a run
    of the dispatcher that receives none leaves all the globals exactly
    as they were. *)
Theorem registries_change_only_on_register (fuel : nat)
    (requests : list dispatcherRequest) (w w' : world) :
  finalWorld (dispatcher env fuel requests w) = Some w' →
  Forall (λ req, isCommandWith "register" (Query req) = false) requests →
  g w' = g w.
Proof.
  intros Hfin Hall. unfold dispatcher, bind, putConnMap in Hfin.
  set (w0 := World (g w) ∅ (reads w) (trace w)) in Hfin.
  pose proof (dispatcherLoop_footprint fuel requests w0) as Hrun.
  rewrite Hfin in Hrun. destruct Hrun as (_ & _ & _ & Hr).
  rewrite (Hr Hall). reflexivity.
Qed.

(** The effect of a validated [disengage] command. *)
Lemma disengage_effect (fuel : nat) (req : dispatcherRequest)
    (cmd : commandBlock) (w : world) :
  validate env (Query req) = None →
  q_Type (Query req) = "command" →
  q_Command (Query req) = Some cmd →
  cmd_Action cmd = "disengage" →
  dispatch env fuel req w =
    Ok Continue
       (World (g w)
          (if decide (q_Source (Query req) ≠ "")
           then delete (q_Source (Query req)) (connMap w) else connMap w)
          (reads w) (trace w ++ [Log Info "Connection disengaged: "])).
Proof.
  intros Hv Ht Hc Ha.
  rewrite (dispatch_command env fuel req cmd w Hv Ht Hc).
  rewrite Ha. simpl. unfold disengage. mrun.
  case_decide; reflexivity.
Qed.

(** X4: a validated [disengage] command removes the entry of its source
    and nothing else; it is a no-op on the table when the source is
    empty or not registered, and repeating it changes nothing more. *)
Theorem disengage_removes_entry (fuel : nat) (req : dispatcherRequest)
    (cmd : commandBlock) (w : world) :
  validate env (Query req) = None →
  q_Type (Query req) = "command" →
  q_Command (Query req) = Some cmd →
  cmd_Action cmd = "disengage" →
  ∃ w',
    dispatch env fuel req w = Ok Continue w' ∧
    g w' = g w ∧
    trace w' = trace w ++ [Log Info "Connection disengaged: "] ∧
    (q_Source (Query req) ≠ "" → connMap w' !! q_Source (Query req) = None) ∧
    (∀ id, id ≠ q_Source (Query req) → connMap w' !! id = connMap w !! id) ∧
    (q_Source (Query req) = "" ∨ connMap w !! q_Source (Query req) = None →
     connMap w' = connMap w) ∧
    ∃ w'', dispatch env fuel req w' = Ok Continue w'' ∧
           connMap w'' = connMap w'.
Proof.
  intros Hv Ht Hc Ha.
  rewrite (disengage_effect fuel req cmd w Hv Ht Hc Ha).
  eexists. split; [reflexivity|]. simpl.
  rewrite (disengage_effect fuel req cmd _ Hv Ht Hc Ha). simpl.
  destruct (decide (q_Source (Query req) ≠ "")) as [Hne|He].
  - split_and!; auto.
    + intros _. apply lookup_delete_eq.
    + intros id Hid. apply lookup_delete_ne. congruence.
    + intros [He|Hnone]; [contradiction|]. apply delete_id. exact Hnone.
    + eexists. split; [reflexivity|]. simpl. apply delete_delete_eq.
  - split_and!; auto.
    + intros Hne. contradiction.
    + eexists. split; [reflexivity|]. reflexivity.
Qed.

(** The table after an accepted engagement that carries a reply channel. *)
Lemma engage_accepted_state (fuel : nat) (req : dispatcherRequest)
    (cmd : commandBlock) (enc : encoder) (ch : chan) (w : world) (j : nat) :
  validate env (Query req) = None →
  q_Type (Query req) = "command" →
  q_Command (Query req) = Some cmd →
  cmd_Action cmd = "engage" →
  Encoder req = Some enc →
  EngageResp req = Some ch →
  engageChk env cmd (q_Source (Query req)) (conf_Secret (conf (g w))) = None →
  j < fuel →
  connMap w !! generateId (randReader env (reads w + j)) = None →
  ∃ id w',
    dispatch env fuel req w = Ok Continue w' ∧
    connMap w !! id = None ∧ id ≠ "" ∧
    connMap w' = <[id := enc]> (connMap w) ∧
    g w' = g w ∧
    ChanSend ch id ∈ trace w' ∧
    Encode enc (proceedQuery id) ∈ trace w' ∧
    (q_Source (Query req) = "" ∨ is_Some (connMap w !! q_Source (Query req)) →
     is16LowerHex id = true).
Proof.
  intros Hv Ht Hc Ha He Hr Hchk Hfuel Hfree.
  rewrite (dispatch_command env fuel req cmd w Hv Ht Hc).
  rewrite decide_True by exact Ha.
  unfold engage. rewrite He, Hr.
  unfold bind at 1. unfold getGlobals. rewrite Hchk.
  match goal with
  | |- context [bind _ (λ id0, bind (collisionLoop _ _ id0) ?k) _] =>
      destruct (chooseId env fuel (q_Source (Query req)) w j k Hfuel Hfree)
        as (id & w1 & -> & Hg & Hm & Htr & Hfr & Hne & Hsame & Hgen)
  end.
  exists id. mrun. rewrite Hg, Hm.
  destruct (decide (id ≠ q_Source (Query req) ∧ q_Source (Query req) ≠ ""));
    simpl; (eexists; split; [reflexivity|]); simpl;
    split_and!; try assumption; try reflexivity;
    try (rewrite !elem_of_app, !list_elem_of_singleton; auto; fail);
    intros Hcase; destruct (Hgen Hcase) as [m ->]; apply generateId_hex.
Qed.

(** X5: an accepted engagement adds exactly one key to the connection
    table: the id it sends on the reply channel, which was not a key
    before. *)
Theorem engage_grows_table_by_one (fuel : nat) (req : dispatcherRequest)
    (cmd : commandBlock) (enc : encoder) (ch : chan) (w : world) (j : nat) :
  validate env (Query req) = None →
  q_Type (Query req) = "command" →
  q_Command (Query req) = Some cmd →
  cmd_Action cmd = "engage" →
  Encoder req = Some enc →
  EngageResp req = Some ch →
  engageChk env cmd (q_Source (Query req)) (conf_Secret (conf (g w))) = None →
  j < fuel →
  connMap w !! generateId (randReader env (reads w + j)) = None →
  ∃ id w',
    dispatch env fuel req w = Ok Continue w' ∧
    ChanSend ch id ∈ trace w' ∧
    (id ∉ dom (connMap w)) ∧
    dom (connMap w') = {[id]} ∪ dom (connMap w) ∧
    size (connMap w') = S (size (connMap w)).
Proof.
  intros Hv Ht Hc Ha He Hr Hchk Hfuel Hfree.
  destruct (engage_accepted_state fuel req cmd enc ch w j
              Hv Ht Hc Ha He Hr Hchk Hfuel Hfree)
    as (id & w' & Hrun & Hnone & Hne & Hmap & Hg & Hsent & _).
  exists id, w'. rewrite Hmap. split_and!; try assumption.
  - apply not_elem_of_dom. exact Hnone.
  - apply dom_insert_L.
  - apply map_size_insert_None. exact Hnone.
Qed.

(** X6: engaging and then disengaging with the assigned id is a round
    trip on the connection table: a [disengage] command whose source is
    the id just installed puts the table back as it was before the
    engagement. *)
Theorem engage_then_disengage_restores_table (fuel : nat)
    (req : dispatcherRequest) (cmd : commandBlock) (enc : encoder)
    (ch : chan) (w : world) (j : nat) :
  validate env (Query req) = None →
  q_Type (Query req) = "command" →
  q_Command (Query req) = Some cmd →
  cmd_Action cmd = "engage" →
  Encoder req = Some enc →
  EngageResp req = Some ch →
  engageChk env cmd (q_Source (Query req)) (conf_Secret (conf (g w))) = None →
  j < fuel →
  connMap w !! generateId (randReader env (reads w + j)) = None →
  ∃ id w1,
    dispatch env fuel req w = Ok Continue w1 ∧
    connMap w1 !! id = Some enc ∧
    ∀ (bye : dispatcherRequest) (byeCmd : commandBlock),
      validate env (Query bye) = None →
      q_Type (Query bye) = "command" →
      q_Command (Query bye) = Some byeCmd →
      cmd_Action byeCmd = "disengage" →
      q_Source (Query bye) = id →
      ∃ w2, dispatch env fuel bye w1 = Ok Continue w2 ∧
            connMap w2 = connMap w.
Proof.
  intros Hv Ht Hc Ha He Hr Hchk Hfuel Hfree.
  destruct (engage_accepted_state fuel req cmd enc ch w j
              Hv Ht Hc Ha He Hr Hchk Hfuel Hfree)
    as (id & w1 & Hrun & Hnone & Hne & Hmap & Hg & Hsent & _).
  exists id, w1. split; [exact Hrun|]. split.
  { rewrite Hmap. apply lookup_insert_eq. }
  intros bye byeCmd Hv' Ht' Hc' Ha' Hsrc.
  rewrite (disengage_effect fuel bye byeCmd w1 Hv' Ht' Hc' Ha').
  eexists. split; [reflexivity|]. simpl.
  rewrite Hsrc, decide_True by exact Hne.
  rewrite Hmap. rewrite delete_insert_eq. apply delete_id. exact Hnone.
Qed.

(** When every id the reader will deliver is taken, the collision loop
    is still running whatever the fuel. *)
Lemma collisionLoop_diverges (fuel : nat) :
  ∀ (id : string) (w : world),
    is_Some (connMap w !! id) →
    (∀ n, reads w ≤ n →
          is_Some (connMap w !! generateId (randReader env n))) →
    collisionLoop env fuel id w = OutOfFuel.
Proof.
  induction fuel as [|fuel IH]; intros id w [e He] Hall; simpl; rewrite He.
  - reflexivity.
  - mrun. apply IH; simpl.
    + apply Hall. lia.
    + intros n Hn. apply Hall. lia.
Qed.

(** X7: the id-regeneration loop has no bound.  If the engagement needs
    a generated id (no id requested, or the requested one taken) and
    every id the random source goes on to deliver is already a key of
    the table, then the pass never completes, however long it is
    followed: no reply is sent and nothing is installed. *)
Theorem engage_never_completes_when_ids_exhausted (fuel : nat)
    (req : dispatcherRequest) (cmd : commandBlock) (enc : encoder)
    (w : world) :
  validate env (Query req) = None →
  q_Type (Query req) = "command" →
  q_Command (Query req) = Some cmd →
  cmd_Action cmd = "engage" →
  Encoder req = Some enc →
  engageChk env cmd (q_Source (Query req)) (conf_Secret (conf (g w))) = None →
  q_Source (Query req) = "" ∨ is_Some (connMap w !! q_Source (Query req)) →
  (∀ n, reads w ≤ n →
        is_Some (connMap w !! generateId (randReader env n))) →
  dispatch env fuel req w = OutOfFuel.
Proof.
  intros Hv Ht Hc Ha He Hchk Hneed Hall.
  rewrite (dispatch_command env fuel req cmd w Hv Ht Hc).
  rewrite decide_True by exact Ha.
  unfold engage. rewrite He.
  unfold bind at 1. unfold getGlobals. rewrite Hchk.
  unfold bind at 1.
  destruct (decide (q_Source (Query req) = "")) as [Hempty|Hnonempty].
  - unfold callGenerateId. unfold bind at 1.
    rewrite collisionLoop_diverges; [reflexivity| |]; simpl.
    + apply Hall. lia.
    + intros n Hn. apply Hall. lia.
  - destruct Hneed as [Hempty|Htaken]; [contradiction|].
    unfold ret. unfold bind at 1.
    rewrite collisionLoop_diverges; [reflexivity|exact Htaken|exact Hall].
Qed.

(** X17: whom the dispatcher writes to.  In one pass the dispatcher
    writes to a connection in two cases only: the reply to an [engage]
    command, a server command written to the encoder that came with the
    request; and an addressed message, written unchanged to the encoder
    registered under its [to].  No other request makes it write
    anything. *)
Theorem dispatch_writes_only_replies_and_routed_messages (fuel : nat)
    (req : dispatcherRequest) (w w' : world) :
  finalWorld (dispatch env fuel req w) = Some w' →
  ∃ evs,
    trace w' = trace w ++ evs ∧
    ∀ (e : encoder) (q' : query),
      Encode e q' ∈ evs →
      (isCommandWith "engage" (Query req) = true ∧
       Encoder req = Some e ∧ q_Source q' = "server") ∨
      (q_Type (Query req) = "message" ∧
       connMap w !! q_To (Query req) = Some e ∧ q' = Query req).
Proof.
  assert (Hskip : ∀ evs,
            existsb isEncode evs = false →
            ∀ e q', Encode e q' ∈ evs → False).
  { intros evs Hnone e q' Hin.
    assert (Hsome : existsb isEncode evs = true).
    { apply existsb_exists. exists (Encode e q').
      split; [apply list_elem_of_In; exact Hin|reflexivity]. }
    congruence. }
  unfold dispatch, isCommandWith.
  destruct (validate env (Query req)).
  { mrun. intros [= <-]. simpl. rewrite <- app_assoc.
    eexists. split; [reflexivity|]. no_encode Hskip. }
  destruct (decide (q_Type (Query req) = "command")) as [Ht|Ht].
  - rewrite (bool_decide_eq_true_2 _ Ht). simpl.
    unfold bind at 1. destruct (q_Command (Query req)) as [cmd|]; simpl.
    2:{ mrun. intros [= <-]. exists []. rewrite app_nil_r.
        split; [reflexivity|]. no_encode Hskip. }
    destruct (decide (cmd_Action cmd = "engage")) as [Ha|Ha];
      [|destruct (decide (cmd_Action cmd = "disengage")) as [Hd|Hd];
        [|destruct (decide (cmd_Action cmd = "register")) as [Hr|Hr]]].
    + rewrite (bool_decide_eq_true_2 _ Ha).
      unfold engage. destruct (Encoder req) as [enc|].
      2:{ mrun. intros [= <-]. simpl. rewrite <- app_assoc.
          eexists. split; [reflexivity|]. no_encode Hskip. }
      unfold bind at 1. unfold getGlobals.
      assert (Hreply : ∀ evs q0,
                existsb isEncode evs = false → q_Source q0 = "server" →
                ∀ e q', Encode e q' ∈ evs ++ [Encode enc q0] →
                  (true = true ∧ Some enc = Some e ∧ q_Source q' = "server") ∨
                  (q_Type (Query req) = "message" ∧
                   connMap w !! q_To (Query req) = Some e ∧ q' = Query req)).
      { intros evs q0 Hnone Hsrc e q' Hin.
        apply elem_of_app in Hin as [Hin|Hin].
        - exfalso. exact (Hskip evs Hnone e q' Hin).
        - apply list_elem_of_singleton in Hin. injection Hin as -> ->. auto. }
      destruct (engageChk env cmd _ _) as [reason|].
      * destruct (EngageResp req); mrun; intros [= <-]; simpl.
        -- exists ([Log Error "Invalid engagement request"; ChanSend c "";
                    ChanClose c] ++
                   [Encode enc (terminateQuery (q_Source (Query req)) reason)]).
           split; [rewrite <- !app_assoc; reflexivity|].
           apply Hreply; reflexivity.
        -- eexists. split; [reflexivity|]. no_encode Hskip.
      * match goal with
        | |- context [bind _ (λ id0, bind (collisionLoop _ _ id0) ?k) _] =>
            destruct (chooseId_cases env fuel (q_Source (Query req)) w k)
              as [->|(id & w1 & -> & Hg & Hm & Htr & Hfr & Hne)]
        end; [discriminate|].
        destruct (EngageResp req); mrun; rewrite Htr;
          case_decide; simpl; intros [= <-]; simpl.
        -- exists ([Log Warn "Requester's source id already";
                    Log Info "Engagement accepted: "; ChanSend c id;
                    ChanClose c] ++ [Encode enc (proceedQuery id)]).
           split; [rewrite <- !app_assoc; reflexivity|].
           apply Hreply; reflexivity.
        -- exists ([Log Info "Engagement accepted: "; ChanSend c id;
                    ChanClose c] ++ [Encode enc (proceedQuery id)]).
           split; [rewrite <- !app_assoc; reflexivity|].
           apply Hreply; reflexivity.
        -- rewrite <- !app_assoc. eexists. split; [reflexivity|].
           no_encode Hskip.
        -- eexists. split; [reflexivity|]. no_encode Hskip.
    + unfold disengage. mrun. case_decide; simpl; intros [= <-]; simpl;
        (eexists; split; [reflexivity|]); no_encode Hskip.
    + unfold register. mrun.
      destruct (registerChk env cmd).
      { simpl. intros [= <-]. simpl. rewrite <- app_assoc.
        eexists. split; [reflexivity|]. no_encode Hskip. }
      destruct (regexp_Compile env (cmd_Data cmd)).
      2:{ simpl. intros [= <-]. simpl. rewrite <- app_assoc.
          eexists. split; [reflexivity|]. no_encode Hskip. }
      destruct (cmd_Array cmd) as [|a0 [|a1 rest]]; simpl;
        repeat case_decide; simpl; intros [= <-]; simpl;
        rewrite <- ?app_assoc;
        (eexists; split; [reflexivity|]); no_encode Hskip.
    + mrun. intros [= <-]. simpl.
      eexists. split; [reflexivity|]. no_encode Hskip.
  - rewrite (bool_decide_eq_false_2 _ Ht). simpl.
    destruct (decide (q_Type (Query req) = "message")) as [Hm|Hm].
    2:{ mrun. intros [= <-]. simpl.
        eexists. split; [reflexivity|]. no_encode Hskip. }
    unfold routeMessage.
    case_decide; destruct (q_Message (Query req)); mrun;
      try destruct (connMap w !! q_To (Query req)) as [dest|] eqn:Hdest;
      simpl; intros [= <-]; simpl; rewrite <- ?app_assoc;
      try (exists []; rewrite app_nil_r; split; [reflexivity|];
           no_encode Hskip);
      try (eexists; split; [reflexivity|]; no_encode Hskip).
    eexists. split; [reflexivity|].
    intros e q' Hin.
    apply elem_of_cons in Hin as [Hin|Hin]; [discriminate|].
    apply elem_of_cons in Hin as [Hin|Hin]; [discriminate|].
    apply list_elem_of_singleton in Hin. injection Hin as -> ->.
    right. auto.
Qed.

(** An engagement that asks for a free, non-empty id gets it, without
    reading from the random source. *)
Lemma engage_requested_id (fuel : nat) (req : dispatcherRequest)
    (cmd : commandBlock) (enc : encoder) (ch : chan) (w : world) :
  validate env (Query req) = None →
  q_Type (Query req) = "command" →
  q_Command (Query req) = Some cmd →
  cmd_Action cmd = "engage" →
  Encoder req = Some enc →
  EngageResp req = Some ch →
  engageChk env cmd (q_Source (Query req)) (conf_Secret (conf (g w))) = None →
  q_Source (Query req) ≠ "" →
  connMap w !! q_Source (Query req) = None →
  dispatch env fuel req w =
    Ok Continue
       (World (g w) (<[q_Source (Query req) := enc]> (connMap w)) (reads w)
          (trace w ++
           [Log Info "Engagement accepted: ";
            ChanSend ch (q_Source (Query req)); ChanClose ch;
            Encode enc (proceedQuery (q_Source (Query req)))])).
Proof.
  intros Hv Ht Hc Ha He Hr Hchk Hne Hfree.
  rewrite (dispatch_command env fuel req cmd w Hv Ht Hc).
  rewrite decide_True by exact Ha.
  unfold engage. rewrite He, Hr.
  unfold bind at 1. unfold getGlobals. rewrite Hchk.
  rewrite decide_False by exact Hne.
  unfold bind at 1. unfold ret. unfold bind at 1.
  rewrite (collisionLoop_free env fuel _ w Hfree). mrun.
  rewrite decide_False by (intros [Hdiff _]; apply Hdiff; reflexivity).
  simpl. rewrite <- !app_assoc. reflexivity.
Qed.

(** X24: two engagements asking for the same id.  The first one, the id
    being free, is given the id it asked for; the second one is given a
    different, generated id of sixteen hexadecimal characters; each is
    told its id on its own reply channel and in its own [proceed]
    command, and afterwards both ids are in the table, each bound to the
    encoder of its connection. *)
Theorem same_id_requested_twice (fuel : nat) (req1 req2 : dispatcherRequest)
    (cmd1 cmd2 : commandBlock) (enc1 enc2 : encoder) (ch1 ch2 : chan)
    (source : string) (w : world) (j : nat) :
  validate env (Query req1) = None →
  q_Type (Query req1) = "command" →
  q_Command (Query req1) = Some cmd1 →
  cmd_Action cmd1 = "engage" →
  Encoder req1 = Some enc1 →
  EngageResp req1 = Some ch1 →
  engageChk env cmd1 source (conf_Secret (conf (g w))) = None →
  q_Source (Query req1) = source →
  validate env (Query req2) = None →
  q_Type (Query req2) = "command" →
  q_Command (Query req2) = Some cmd2 →
  cmd_Action cmd2 = "engage" →
  Encoder req2 = Some enc2 →
  EngageResp req2 = Some ch2 →
  engageChk env cmd2 source (conf_Secret (conf (g w))) = None →
  q_Source (Query req2) = source →
  source ≠ "" →
  connMap w !! source = None →
  j < fuel →
  <[source := enc1]> (connMap w)
    !! generateId (randReader env (reads w + j)) = None →
  ∃ w1 id2 w2,
    dispatch env fuel req1 w = Ok Continue w1 ∧
    ChanSend ch1 source ∈ trace w1 ∧
    Encode enc1 (proceedQuery source) ∈ trace w1 ∧
    dispatch env fuel req2 w1 = Ok Continue w2 ∧
    ChanSend ch2 id2 ∈ trace w2 ∧
    Encode enc2 (proceedQuery id2) ∈ trace w2 ∧
    id2 ≠ source ∧
    is16LowerHex id2 = true ∧
    connMap w2 !! source = Some enc1 ∧
    connMap w2 !! id2 = Some enc2.
Proof.
  intros Hv1 Ht1 Hc1 Ha1 He1 Hr1 Hchk1 Hs1 Hv2 Ht2 Hc2 Ha2 He2 Hr2 Hchk2 Hs2
         Hne Hfree Hfuel Hfresh.
  rewrite <- Hs1 in Hchk1, Hfree, Hne.
  rewrite (engage_requested_id fuel req1 cmd1 enc1 ch1 w
             Hv1 Ht1 Hc1 Ha1 He1 Hr1 Hchk1 Hne Hfree).
  rewrite Hs1 in *.
  set (w1 := World (g w) (<[source:=enc1]> (connMap w)) (reads w)
               (trace w ++
                [Log Info "Engagement accepted: "; ChanSend ch1 source;
                 ChanClose ch1; Encode enc1 (proceedQuery source)])).
  rewrite <- Hs2 in Hchk2.
  destruct (engage_accepted_state fuel req2 cmd2 enc2 ch2 w1 j
              Hv2 Ht2 Hc2 Ha2 He2 Hr2 Hchk2 Hfuel Hfresh)
    as (id2 & w2 & Hrun & Hnone & Hid & Hmap & Hg & Hsent & Hwritten & Hhex).
  assert (Hdiff : id2 ≠ source).
  { intros ->. simpl in Hnone. rewrite lookup_insert_eq in Hnone. discriminate. }
  exists w1, id2, w2. split_and!; try assumption; try reflexivity.
  - simpl. rewrite elem_of_app, !elem_of_cons. auto.
  - simpl. rewrite elem_of_app, !elem_of_cons. auto 10.
  - apply Hhex. right. rewrite Hs2. simpl. rewrite lookup_insert_eq. eauto.
  - rewrite Hmap. simpl. rewrite lookup_insert_ne by exact Hdiff.
    apply lookup_insert_eq.
  - rewrite Hmap. apply lookup_insert_eq.
Qed.

(** X25: what the dispatcher hands off.  In one pass the dispatcher
    starts at most one worker: [handleCommand] for a validated command
    whose action is none of [engage], [disengage], [register], with the
    command and the source of the envelope; [handleMessage] for a
    validated message whose [to] is empty or ["server"], with the message
    and the source of the envelope.  No other request starts any. *)
Theorem dispatch_hands_off_only_unrecognised_work (fuel : nat)
    (req : dispatcherRequest) (w w' : world) :
  finalWorld (dispatch env fuel req w) = Some w' →
  ∃ evs,
    trace w' = trace w ++ evs ∧
    length (List.filter isHandOff evs) ≤ 1 ∧
    (∀ cmd source,
       GoHandleCommand cmd source ∈ evs →
       validate env (Query req) = None ∧
       q_Type (Query req) = "command" ∧
       q_Command (Query req) = Some cmd ∧
       source = q_Source (Query req) ∧
       cmd_Action cmd ∉ ["engage"; "disengage"; "register"]) ∧
    (∀ msg source,
       GoHandleMessage msg source ∈ evs →
       validate env (Query req) = None ∧
       q_Type (Query req) = "message" ∧
       q_Message (Query req) = Some msg ∧
       source = q_Source (Query req) ∧
       (q_To (Query req) = "" ∨ q_To (Query req) = "server")).
Proof.
  assert (Hskip : ∀ evs,
            existsb isHandOff evs = false →
            length (List.filter isHandOff evs) ≤ 1 ∧
            (∀ cmd source, GoHandleCommand cmd source ∈ evs → False) ∧
            (∀ msg source, GoHandleMessage msg source ∈ evs → False)).
  { intros evs Hnone.
    assert (Hno : ∀ ev, ev ∈ evs → isHandOff ev = false).
    { intros ev Hin. destruct (isHandOff ev) eqn:Hev; [|reflexivity].
      assert (existsb isHandOff evs = true).
      { apply existsb_exists. exists ev.
        split; [apply list_elem_of_In; exact Hin|exact Hev]. }
      congruence. }
    split_and!.
    - clear Hno. induction evs as [|ev evs IH]; simpl; [lia|].
      simpl in Hnone. apply orb_false_iff in Hnone as [-> Hrest]. auto.
    - intros cmd source Hin. specialize (Hno _ Hin). discriminate.
    - intros msg source Hin. specialize (Hno _ Hin). discriminate. }
  unfold dispatch.
  destruct (validate env (Query req)) eqn:Hv.
  { mrun. intros [= <-]. simpl. rewrite <- app_assoc.
    eexists. split; [reflexivity|]. no_handoff Hskip. }
  destruct (decide (q_Type (Query req) = "command")) as [Ht|Ht].
  - unfold bind at 1. destruct (q_Command (Query req)) as [cmd|] eqn:Hc; simpl.
    2:{ mrun. intros [= <-]. exists []. rewrite app_nil_r.
        split; [reflexivity|]. no_handoff Hskip. }
    destruct (decide (cmd_Action cmd = "engage")) as [Ha|Ha];
      [|destruct (decide (cmd_Action cmd = "disengage")) as [Hd|Hd];
        [|destruct (decide (cmd_Action cmd = "register")) as [Hr|Hr]]].
    + unfold engage. destruct (Encoder req) as [enc|].
      2:{ mrun. intros [= <-]. simpl. rewrite <- app_assoc.
          eexists. split; [reflexivity|]. no_handoff Hskip. }
      unfold bind at 1. unfold getGlobals.
      destruct (engageChk env cmd _ _) as [reason|].
      * destruct (EngageResp req); mrun; intros [= <-]; simpl;
          rewrite <- ?app_assoc;
          (eexists; split; [reflexivity|]); no_handoff Hskip.
      * match goal with
        | |- context [bind _ (λ id0, bind (collisionLoop _ _ id0) ?k) _] =>
            destruct (chooseId_cases env fuel (q_Source (Query req)) w k)
              as [->|(id & w1 & -> & Hg & Hm & Htr & Hfr & Hne)]
        end; [discriminate|].
        destruct (EngageResp req); mrun; rewrite Htr;
          case_decide; simpl; intros [= <-]; simpl;
          rewrite <- ?app_assoc;
          (eexists; split; [reflexivity|]); no_handoff Hskip.
    + unfold disengage. mrun. case_decide; simpl; intros [= <-]; simpl;
        (eexists; split; [reflexivity|]); no_handoff Hskip.
    + unfold register. mrun.
      destruct (registerChk env cmd).
      { simpl. intros [= <-]. simpl. rewrite <- app_assoc.
        eexists. split; [reflexivity|]. no_handoff Hskip. }
      destruct (regexp_Compile env (cmd_Data cmd)).
      2:{ simpl. intros [= <-]. simpl. rewrite <- app_assoc.
          eexists. split; [reflexivity|]. no_handoff Hskip. }
      destruct (cmd_Array cmd) as [|a0 [|a1 rest]]; simpl;
        repeat case_decide; simpl; intros [= <-]; simpl;
        rewrite <- ?app_assoc;
        (eexists; split; [reflexivity|]); no_handoff Hskip.
    + mrun. intros [= <-]. simpl.
      eexists. split; [reflexivity|]. simpl. split; [lia|]. split.
      * intros cmd' source Hin.
        apply list_elem_of_singleton in Hin. injection Hin as -> ->.
        split_and!; auto.
        rewrite !not_elem_of_cons. split_and!; auto. apply not_elem_of_nil.
      * intros msg source Hin.
        apply list_elem_of_singleton in Hin. discriminate.
  - destruct (decide (q_Type (Query req) = "message")) as [Hm|Hm].
    2:{ mrun. intros [= <-]. simpl.
        eexists. split; [reflexivity|]. no_handoff Hskip. }
    unfold routeMessage.
    destruct (decide (q_To (Query req) ≠ "" ∧ q_To (Query req) ≠ "server"))
      as [Hto|Hto];
      destruct (q_Message (Query req)) as [msg0|] eqn:Hmsg; mrun.
    + destruct (connMap w !! q_To (Query req)) as [dest|] eqn:Hdest;
        simpl; intros [= <-]; simpl; rewrite <- ?app_assoc;
        (eexists; split; [reflexivity|]); no_handoff Hskip.
    + intros [= <-]. exists []. rewrite app_nil_r.
      split; [reflexivity|]. no_handoff Hskip.
    + intros [= <-]. simpl. rewrite <- app_assoc.
      eexists. split; [reflexivity|]. simpl. split; [lia|]. split.
      * intros cmd source Hin.
        apply elem_of_cons in Hin as [Hin|Hin]; [discriminate|].
        apply list_elem_of_singleton in Hin. discriminate.
      * intros msg source Hin.
        apply elem_of_cons in Hin as [Hin|Hin]; [discriminate|].
        apply list_elem_of_singleton in Hin. injection Hin as -> ->.
        split_and!; auto.
        destruct (decide (q_To (Query req) = "")) as [|Hne]; [auto|].
        destruct (decide (q_To (Query req) = "server")) as [|Hns]; [auto|].
        exfalso. apply Hto. auto.
    + intros [= <-]. exists []. rewrite app_nil_r.
      split; [reflexivity|]. no_handoff Hskip.
Qed.

End DispatcherMore.

(** ** More on the connection loop *)

Section ServeMore.

Variable env : collaborators.

(** What the post-handshake branch forwards: only a validated envelope,
    re-stamped with the connection's id, with the connection's encoder
    and no reply channel. *)
Lemma forward_submitted (enc : encoder) (st : connState) (q : query)
    (req : dispatcherRequest) :
  req ∈ submitted (forward env enc st q) →
  validate env q = None ∧
  (req = DispatcherRequest (setSource q (sv_id st)) (Some enc) None ∨
   req = DispatcherRequest (setTo (setSource q (sv_id st)) "")
           (Some enc) None).
Proof.
  unfold forward.
  destruct (validate env q) as [err|]; simpl.
  { intros Hin. exfalso. eapply elem_of_nil; eassumption. }
  intros Hin. split; [reflexivity|]. revert Hin.
  destruct (sv_isAdapter st).
  - destruct (notInfoCommand _) as [[|]|]; simpl;
      try (intros Hin; exfalso; eapply elem_of_nil; eassumption);
      destruct (isRegisterCommand _) as [[|]|]; simpl;
      try (intros Hin; exfalso; eapply elem_of_nil; eassumption);
      intros Hin; apply list_elem_of_singleton in Hin as ->; auto.
  - repeat case_decide; simpl;
      try (intros Hin; exfalso; eapply elem_of_nil; eassumption);
      intros Hin; apply list_elem_of_singleton in Hin as ->; auto.
Qed.

Lemma forward_no_stream_end (enc : encoder) (st : connState) (q : query) :
  match forward env enc st q with
  | ServeStep evs c st' =>
      List.filter isStreamEndSubmit evs = [] ∧ c = Continue ∧ st' = st
  | ServePanic evs => List.filter isStreamEndSubmit evs = []
  end.
Proof.
  unfold forward.
  destruct (validate env q); [auto|].
  destruct (sv_isAdapter st).
  - destruct (notInfoCommand _) as [clear|]; [|auto].
    destruct (isRegisterCommand _) as [[|]|]; auto.
  - repeat case_decide; auto.
Qed.

Lemma submittedOf_app (evs evs' : list serveEvent) :
  submittedOf (evs ++ evs') = submittedOf evs ++ submittedOf evs'.
Proof. unfold submittedOf. apply omap_app. Qed.

Lemma serveSubmission_mono (enc : encoder) (resp : chan) (reply : string)
    (input input' : list decoded) (req : dispatcherRequest) :
  input ⊆ input' →
  serveSubmission env enc resp reply input req →
  serveSubmission env enc resp reply input' req.
Proof.
  intros Hsub [(q & Hin & H)|[(q & Hin & H)|(Hin & H)]].
  - left. exists q. split; [apply Hsub, Hin|exact H].
  - right. left. exists q. split; [apply Hsub, Hin|exact H].
  - right. right. split; [apply Hsub, Hin|exact H].
Qed.

(** One pass of the body of [serve] from a state whose id is empty or
    the assigned one. *)
Lemma serveBody_submissions (enc : encoder) (resp : chan) (reply : string)
    (st : connState) (d : decoded) :
  sv_id st = "" ∨ (sv_id st = reply ∧ reply ≠ "") →
  match serveBody env enc resp reply st d with
  | ServeStep evs c st' =>
      (∀ req, req ∈ submittedOf evs →
              serveSubmission env enc resp reply [d] req) ∧
      (sv_id st' = "" ∨ (sv_id st' = reply ∧ reply ≠ ""))
  | ServePanic evs =>
      ∀ req, req ∈ submittedOf evs →
             serveSubmission env enc resp reply [d] req
  end.
Proof.
  intros Hinv. destruct d as [| |q]; simpl.
  - split; [|exact Hinv].
    intros req Hreq. apply list_elem_of_singleton in Hreq as ->.
    right. right. split; [apply list_elem_of_here|].
    destruct Hinv as [->|[-> _]]; auto.
  - split; [|exact Hinv].
    intros req Hreq. exfalso. eapply elem_of_nil; eassumption.
  - destruct (decide (sv_id st = "")) as [Hempty|Hid].
    + unfold initialize.
      destruct (checkEngagement env q) as [err|] eqn:Hchk; simpl.
      { split; [|exact Hinv].
        intros req Hreq. exfalso. eapply elem_of_nil; eassumption. }
      assert (Hshake : ∀ req,
                req ∈ [DispatcherRequest q (Some enc) (Some resp)] →
                serveSubmission env enc resp reply [Decoded q] req).
      { intros req Hreq. apply list_elem_of_singleton in Hreq as ->.
        left. exists q. split; [apply list_elem_of_here|auto]. }
      destruct (decide (reply = "")) as [Hr|Hr]; simpl.
      { split; [exact Hshake|exact Hinv]. }
      destruct (q_Command q); simpl; [|exact Hshake].
      split; [exact Hshake|]. right. auto.
    + destruct Hinv as [He|[Heq Hne]]; [contradiction|].
      pose proof (forward_no_stream_end enc st q) as Hkeep.
      pose proof (forward_submitted enc st q) as Hsub.
      assert (Hall : ∀ evs, submitted (forward env enc st q) = submittedOf evs →
                ∀ req, req ∈ submittedOf evs →
                       serveSubmission env enc resp reply [Decoded q] req).
      { intros evs Hevs req Hreq. rewrite <- Hevs in Hreq.
        destruct (Hsub req Hreq) as [Hv Hform]. rewrite Heq in Hform.
        right. left. exists q. split; [apply list_elem_of_here|auto]. }
      destruct (forward env enc st q) as [evs c st'|evs]; simpl in *.
      * destruct Hkeep as (_ & _ & ->). split; [apply Hall; reflexivity|].
        right. auto.
      * apply Hall. reflexivity.
Qed.

Lemma serveLoop_submissions (enc : encoder) (resp : chan) (reply : string)
    (input : list decoded) :
  ∀ st : connState,
    sv_id st = "" ∨ (sv_id st = reply ∧ reply ≠ "") →
    (∀ req, req ∈ submittedOf (serveLoop env enc resp reply st input).1 →
            serveSubmission env enc resp reply input req) ∧
    (∀ st', (serveLoop env enc resp reply st input).2 = Some st' →
            sv_id st' = "" ∨ (sv_id st' = reply ∧ reply ≠ "")).
Proof.
  induction input as [|d rest IH]; intros st Hinv; simpl.
  - split.
    + intros req Hreq. exfalso. eapply elem_of_nil; eassumption.
    + intros st' [= <-]. exact Hinv.
  - pose proof (serveBody_submissions enc resp reply st d Hinv) as Hstep.
    assert (Hhead : [d] ⊆ d :: rest).
    { intros x Hx. apply list_elem_of_singleton in Hx as ->.
      apply list_elem_of_here. }
    assert (Htail : rest ⊆ d :: rest).
    { intros x Hx. apply list_elem_of_further. exact Hx. }
    destruct (serveBody env enc resp reply st d) as [evs [|] st1|evs]; simpl.
    + destruct Hstep as [Hsub Hinv1]. specialize (IH st1 Hinv1).
      destruct (serveLoop env enc resp reply st1 rest) as [evs' final].
      simpl in *. destruct IH as [IHsub IHfin]. split; [|exact IHfin].
      intros req Hreq. rewrite submittedOf_app in Hreq.
      apply elem_of_app in Hreq as [Hreq|Hreq].
      * eapply serveSubmission_mono; [exact Hhead|auto].
      * eapply serveSubmission_mono; [exact Htail|auto].
    + destruct Hstep as [Hsub Hinv1]. split.
      * intros req Hreq. eapply serveSubmission_mono; [exact Hhead|auto].
      * intros st' [= <-]. exact Hinv1.
    + split; [|discriminate].
      intros req Hreq. eapply serveSubmission_mono; [exact Hhead|auto].
Qed.

(** X10: everything [serve] hands to the dispatcher, over a whole
    connection.  A submitted request is the handshake envelope with the
    reply channel (only if it passed [checkEngagement]), or a decoded
    envelope that passed [validate], re-stamped with the id assigned at
    the handshake whatever source the client wrote, with the
    connection's encoder and no reply channel, or the [disengage] sent
    at the end of the stream.  The loop variable [id] is only ever empty
    or the assigned id. *)
Theorem serve_submissions (enc : encoder) (resp : chan) (reply : string)
    (input : list decoded) (req : dispatcherRequest) :
  req ∈ submittedOf (serve env enc resp reply input).1 →
  serveSubmission env enc resp reply input req ∧
  (∀ st, (serve env enc resp reply input).2 = Some st →
         sv_id st = "" ∨ (sv_id st = reply ∧ reply ≠ "")).
Proof.
  intros Hreq. unfold serve in *.
  destruct (serveLoop_submissions enc resp reply input (ConnState "" false))
    as [Hsub Hfin]; [left; reflexivity|].
  split; [apply Hsub, Hreq|exact Hfin].
Qed.




(** X12: [initialize] succeeds exactly when the envelope passes
    [checkEngagement] and the dispatcher answers a non-empty id, and it
    returns that id; an envelope that fails [checkEngagement] is never
    shown to the dispatcher, one that passes is submitted once, with the
    connection's encoder and the reply channel. *)
Theorem initialize_result (q : query) (enc : encoder) (resp : chan)
    (reply : string) :
  let r := initialize env q enc resp reply in
  (∀ id, r.2 = inl id ↔
         checkEngagement env q = None ∧ reply ≠ "" ∧ id = reply) ∧
  submittedOf r.1 =
    match checkEngagement env q with
    | None => [DispatcherRequest q (Some enc) (Some resp)]
    | Some _ => []
    end.
Proof.
  unfold initialize.
  destruct (checkEngagement env q) as [err|]; simpl.
  - split; [|reflexivity]. intros id. split; [discriminate|].
    intros (Hc & _). discriminate.
  - destruct (decide (reply = "")) as [He|Hne]; simpl.
    + split; [|reflexivity]. intros id. split; [discriminate|].
      intros (_ & Hne & _). contradiction.
    + split; [|reflexivity]. intros id. split.
      * intros [= <-]. auto.
      * intros (_ & _ & ->). reflexivity.
Qed.

(** X28: a failed handshake ends the connection.  When the first
    envelope fails [checkEngagement], or the dispatcher answers with the
    empty id, [serve] logs the failure, closes the connection and leaves
    its loop: it reads nothing more and submits no [disengage]; the
    dispatcher has seen the envelope only if it passed
    [checkEngagement]. *)
Theorem failed_handshake_closes_connection (enc : encoder) (resp : chan)
    (reply : string) (st : connState) (q : query) :
  sv_id st = "" →
  checkEngagement env q ≠ None ∨ reply = "" →
  ∃ evs,
    serveBody env enc resp reply st (Decoded q)
      = ServeStep (evs ++ [SLog Error "Failed to engage:"; ConnClose])
                  Break st ∧
    submittedOf evs =
      match checkEngagement env q with
      | None => [DispatcherRequest q (Some enc) (Some resp)]
      | Some _ => []
      end ∧
    ∀ rest,
      serveLoop env enc resp reply st (Decoded q :: rest)
        = (evs ++ [SLog Error "Failed to engage:"; ConnClose], Some st).
Proof.
  intros Hid Hfail.
  assert (Hbody : ∃ evs,
            serveBody env enc resp reply st (Decoded q)
              = ServeStep (evs ++ [SLog Error "Failed to engage:"; ConnClose])
                          Break st ∧
            submittedOf evs =
              match checkEngagement env q with
              | None => [DispatcherRequest q (Some enc) (Some resp)]
              | Some _ => []
              end).
  { unfold serveBody, initialize. rewrite decide_True by exact Hid.
    destruct (checkEngagement env q) as [err|].
    - exists []. split; reflexivity.
    - destruct Hfail as [Hc | Hr]; [contradiction|]. subst reply. simpl.
      exists [Submit (DispatcherRequest q (Some enc) (Some resp))].
      split; reflexivity. }
  destruct Hbody as (evs & Hstep & Hsub).
  exists evs. split; [exact Hstep|]. split; [exact Hsub|].
  intros rest. cbn [serveLoop]. rewrite Hstep. reflexivity.
Qed.

End ServeMore.

(** ** The connection loop and the dispatcher together *)

Section EndToEnd.

Variable env : collaborators.

(** The pass of the dispatcher over a validated message envelope. *)
Lemma dispatch_message (fuel : nat) (req : dispatcherRequest)
    (msg : messageBlock) (w : world) :
  validate env (Query req) = None →
  q_Type (Query req) = "message" →
  q_Message (Query req) = Some msg →
  dispatch env fuel req w =
    Ok Continue
       (World (g w) (connMap w) (reads w)
          (trace w ++
           if decide (q_To (Query req) ≠ "" ∧ q_To (Query req) ≠ "server")
           then [Log Debug "Responder message received:";
                 Log Debug "Query source:";
                 match connMap w !! q_To (Query req) with
                 | Some enc => Encode enc (Query req)
                 | None => Log Error "Cannot find adapter source for"
                 end]
           else [Log Debug "Adapter message received:";
                 GoHandleMessage msg (q_Source (Query req))])).
Proof.
  intros Hv Ht Hm. unfold dispatch. rewrite Hv.
  destruct (decide (q_Type (Query req) = "command")) as [Hc|_];
    [rewrite Ht in Hc; discriminate|].
  rewrite decide_True by exact Ht.
  unfold routeMessage. rewrite Hm.
  case_decide; mrun; [destruct (connMap w !! q_To (Query req))|];
    simpl; rewrite <- ?app_assoc; reflexivity.
Qed.

(** X13: a chat message from an adapter always goes to the matching
    engine.  Whatever [source] and [to] the adapter wrote, [serve]
    forwards the envelope with the connection's id as source and an
    empty [to], and the dispatcher hands its message to [handleMessage]
    with that id; nothing is written to any connection and no state
    changes. *)
Theorem adapter_message_reaches_matching (enc : encoder) (resp : chan)
    (reply : string) (st : connState) (q : query) (msg : messageBlock) :
  sv_id st ≠ "" →
  sv_isAdapter st = true →
  q_Type q = "message" →
  q_Message q = Some msg →
  validate env q = None →
  validate env (setTo (setSource q (sv_id st)) "") = None →
  ∃ req,
    serveBody env enc resp reply st (Decoded q)
      = ServeStep [Submit req] Continue st ∧
    q_Source (Query req) = sv_id st ∧
    q_To (Query req) = "" ∧
    ∀ (fuel : nat) (w : world),
      ∃ w',
        dispatch env fuel req w = Ok Continue w' ∧
        g w' = g w ∧ connMap w' = connMap w ∧
        trace w' = trace w ++
          [Log Debug "Adapter message received:";
           GoHandleMessage msg (sv_id st)].
Proof.
  intros Hid Had Ht Hm Hv Hv'.
  exists (DispatcherRequest (setTo (setSource q (sv_id st)) "") (Some enc) None).
  split.
  { unfold serveBody. rewrite decide_False by exact Hid.
    unfold forward, notInfoCommand, isRegisterCommand.
    rewrite Hv, Had. simpl. rewrite Ht. simpl. rewrite Ht. reflexivity. }
  split; [reflexivity|]. split; [reflexivity|].
  intros fuel w.
  rewrite (dispatch_message fuel
             (DispatcherRequest (setTo (setSource q (sv_id st)) "")
                (Some enc) None) msg w Hv' Ht Hm). simpl.
  eexists. split; [reflexivity|]. auto.
Qed.

(** X14: an addressed message from a responder is delivered with the
    connection's id as source.  [serve] forwards the envelope with the
    client-written source replaced, and the dispatcher writes exactly
    that envelope to the encoder registered under [to], or logs an error
    when there is none; the table and the registries are unchanged. *)
Theorem responder_message_delivered (enc : encoder) (resp : chan)
    (reply : string) (st : connState) (q : query) (msg : messageBlock) :
  sv_id st ≠ "" →
  sv_isAdapter st = false →
  q_Type q = "message" →
  q_Message q = Some msg →
  q_To q ≠ "" →
  q_To q ≠ "server" →
  validate env q = None →
  validate env (setSource q (sv_id st)) = None →
  ∃ req,
    serveBody env enc resp reply st (Decoded q)
      = ServeStep [Submit req] Continue st ∧
    Query req = setSource q (sv_id st) ∧
    ∀ (fuel : nat) (w : world),
      ∃ w',
        dispatch env fuel req w = Ok Continue w' ∧
        g w' = g w ∧ connMap w' = connMap w ∧
        trace w' = trace w ++
          [Log Debug "Responder message received:";
           Log Debug "Query source:";
           match connMap w !! q_To q with
           | Some dest => Encode dest (setSource q (sv_id st))
           | None => Log Error "Cannot find adapter source for"
           end].
Proof.
  intros Hid Had Ht Hm Hto Hsrv Hv Hv'.
  exists (DispatcherRequest (setSource q (sv_id st)) (Some enc) None).
  split.
  { unfold serveBody. rewrite decide_False by exact Hid.
    unfold forward. rewrite Hv, Had. simpl.
    rewrite decide_False by exact Hto.
    rewrite decide_False by (intros [_ Hs]; contradiction). reflexivity. }
  split; [reflexivity|].
  intros fuel w.
  rewrite (dispatch_message fuel
             (DispatcherRequest (setSource q (sv_id st)) (Some enc) None)
             msg w Hv' Ht Hm). simpl.
  rewrite decide_True by auto.
  eexists. split; [reflexivity|]. auto.
Qed.

(** X15: the end of a connection's stream removes the connection.  At
    the end of the stream [serve] submits one [disengage] command for
    its id and leaves its loop; when the dispatcher processes it the
    entry of that id is gone and every other entry is as before.  Before
    a completed handshake the id is empty and the table is untouched. *)
Theorem end_of_stream_disengages (enc : encoder) (resp : chan)
    (reply : string) (st : connState) :
  validate env (disengageQuery (sv_id st)) = None →
  ∃ evs req,
    serveBody env enc resp reply st DecodeEOF = ServeStep evs Break st ∧
    submittedOf evs = [req] ∧
    ∀ (fuel : nat) (w : world),
      ∃ w',
        dispatch env fuel req w = Ok Continue w' ∧
        g w' = g w ∧
        connMap w' = (if decide (sv_id st = "") then connMap w
                      else delete (sv_id st) (connMap w)) ∧
        (sv_id st ≠ "" → connMap w' !! sv_id st = None).
Proof.
  intros Hv. eexists _, _. split; [reflexivity|]. split; [reflexivity|].
  intros fuel w.
  rewrite (disengage_effect env fuel
             (DispatcherRequest (disengageQuery (sv_id st)) None None)
             (CommandBlock "" "disengage" "" "" [] []) w Hv);
    try reflexivity.
  eexists. split; [reflexivity|]. simpl.
  destruct (decide (sv_id st = "")) as [He|Hne].
  - rewrite decide_False by auto. split_and!; auto. intros H. contradiction.
  - rewrite decide_True by exact Hne. split_and!; auto.
    intros _. apply lookup_delete_eq.
Qed.


End EndToEnd.

(** ** The two markers of an argument template *)

Lemma append_String (a : ascii) (p q : string) :
  String a p +:+ q = String a (p +:+ q).
Proof. reflexivity. Qed.

Lemma prefix_spec (p s : string) :
  String.prefix p s = true ↔ ∃ post, s = p +:+ post.
Proof.
  revert s. induction p as [|a p IH]; intros s.
  - destruct s; simpl; (split; [intros _; eexists; reflexivity|reflexivity]).
  - destruct s as [|b s]; simpl.
    + split; [discriminate|intros [post Hpost]; discriminate].
    + destruct (ascii_dec a b) as [->|Hne].
      * rewrite IH. split; intros [post Hpost]; exists post;
          rewrite append_String in *; congruence.
      * split; [discriminate|]. intros [post Hpost].
        rewrite append_String in Hpost. congruence.
Qed.

Lemma startsWithSubMarker_spec (s : string) :
  startsWithSubMarker s = true ↔
  ∃ d post, s = "__" +:+ String d ("__" +:+ post) ∧ isDigit d = true.
Proof.
  split.
  - unfold startsWithSubMarker. intros H.
    destruct s as [|[[] [] [] [] [] [] [] []] s]; try discriminate H.
    destruct s as [|[[] [] [] [] [] [] [] []] s]; try discriminate H.
    destruct s as [|d s]; try discriminate H.
    destruct s as [|[[] [] [] [] [] [] [] []] s]; try discriminate H.
    destruct s as [|[[] [] [] [] [] [] [] []] s]; try discriminate H.
    exists d, s. split; [reflexivity|exact H].
  - intros (d & post & -> & Hd). exact Hd.
Qed.

(** X22: what the two marker patterns detect.  The capture pattern
    matches an argument exactly when it contains two underscores, one
    decimal digit and two underscores in a row; the room pattern exactly
    when it contains the text [__room__]; in both cases anywhere in the
    argument. *)
Theorem marker_detection (arg : string) :
  (subRegex_MatchString arg = true ↔
   ∃ pre d post,
     arg = pre +:+ "__" +:+ String d ("__" +:+ post) ∧ isDigit d = true) ∧
  (roomRegex_MatchString arg = true ↔
   ∃ pre post, arg = pre +:+ "__room__" +:+ post).
Proof.
  split.
  - induction arg as [|a arg IH].
    + split; [discriminate|].
      intros (pre & d & post & Heq & _). destruct pre; discriminate.
    + cbn [subRegex_MatchString]. rewrite orb_true_iff, IH.
      rewrite startsWithSubMarker_spec. split.
      * intros [(d & post & Heq & Hd)|(pre & d & post & Heq & Hd)].
        -- exists "", d, post. auto.
        -- exists (String a pre), d, post.
           rewrite append_String, Heq. auto.
      * intros (pre & d & post & Heq & Hd). destruct pre as [|b pre].
        -- left. exists d, post. auto.
        -- right. rewrite append_String in Heq. injection Heq as -> ->.
           exists pre, d, post. auto.
  - induction arg as [|a arg IH].
    + split; [discriminate|].
      intros (pre & post & Heq). destruct pre; discriminate.
    + cbn [roomRegex_MatchString]. rewrite orb_true_iff, IH, prefix_spec.
      split.
      * intros [(post & Heq)|(pre & post & Heq)].
        -- exists "", post. auto.
        -- exists (String a pre), post.
           rewrite append_String, Heq. auto.
      * intros (pre & post & Heq). destruct pre as [|b pre].
        -- left. exists post. auto.
        -- right. rewrite append_String in Heq. injection Heq as -> ->.
           exists pre, post. auto.
Qed.

(** ** More on start-up *)

Section StartupMore.

Variable env : collaborators.

(** A completed start-up had no fault. *)
Lemma startup_ok_no_fault (w w' : world) :
  startup env w = Ok tt w' →
  startupFault env (conf (g w)) = false.
Proof.
  intros Hrun. pose proof (startup_outcome env w) as Hout.
  destruct (startupFault env (conf (g w))); [|reflexivity].
  destruct Hout as (w1 & Hhalt). congruence.
Qed.

(** X18: the help index after a completed start-up.  It lists, in
    configuration order, for each passive responder one entry per
    help-trigger command (flagged [noPrefix] when the responder is) and
    then one per mention help-trigger command (flagged [mention]); every
    entry carries a non-empty help text and none is flagged both ways.
    The four active buckets start empty. *)
Theorem startup_builds_help_index (w w' : world)
    (responders : responderConfig) :
  conf_Responders (conf (g w)) = Some responders →
  startup env w = Ok tt w' →
  help (g w') = concat (helpOf <$> Passive responders) ∧
  (∀ h, h ∈ help (g w') →
        hi_helpMsg h ≠ "" ∧ (hi_noPrefix h && hi_mention h = false)) ∧
  activeBuckets (g w') = [[]; []; []; []].
Proof.
  intros Hresp Hrun.
  pose proof (startup_ok_no_fault w w' Hrun) as Hfault.
  pose proof (startup_outcome env w) as Hout.
  rewrite Hfault, Hresp in Hout.
  destruct Hout as (cs & w1 & Hok & _ & _ & _ & _ & _ & Hact & Hhelp).
  assert (w1 = w') as -> by congruence.
  split; [exact Hhelp|]. split; [|exact Hact].
  unfold startupFault in Hfault. rewrite Hresp in Hfault.
  apply orb_false_iff in Hfault as [_ Hnone].
  intros h Hh. rewrite Hhelp in Hh.
  apply list_elem_of_In, in_concat in Hh as (hs & Hhs & Hin).
  apply list_elem_of_In in Hhs, Hin.
  apply list_elem_of_fmap in Hhs as (pr & -> & Hpr).
  assert (Hprok : passiveFault env pr = false).
  { destruct (passiveFault env pr) eqn:Hf; [|reflexivity].
    assert (existsb (passiveFault env) (Passive responders) = true).
    { apply existsb_exists. exists pr.
      split; [apply list_elem_of_In; exact Hpr|exact Hf]. }
    congruence. }
  apply passiveFault_false in Hprok as (_ & _ & _ & _ & Htext & _).
  unfold helpOf in Hin. apply elem_of_app in Hin as [Hin|Hin];
    apply list_elem_of_fmap in Hin as (cmd & -> & _); simpl.
  - split; [exact Htext|]. apply andb_false_r.
  - split; [exact Htext|]. reflexivity.
Qed.

(** X19: a configuration without a responders section.  When the help
    pattern compiles and the parsed configuration has no responders
    section, start-up does not end in a logged fatal error: it stops on
    the nil dereference of [conf.Responders], having logged only its
    two debug lines. *)
Theorem startup_without_responders_panics (w : world) :
  compiles env (helpPattern (conf (g w))) = true →
  conf_Responders (conf (g w)) = None →
  ∃ w', startup env w = Halted Panic w' ∧
        trace w' = trace w ++
          [Log Debug "Help command:"; Log Debug "Config loaded:"].
Proof.
  intros Hhelp Hnone.
  unfold startup, helpPattern in *. mrun.
  unfold regexp_Compile, compiles in *.
  destruct (decide (conf_Help (conf (g w)) = "")); simpl in *;
    destruct (regexpError env _); try discriminate; simpl;
    rewrite Hnone; simpl;
    (eexists; split; [reflexivity|]); simpl;
    rewrite <- app_assoc; reflexivity.
Qed.

(** The start of [startup] when the help pattern compiles. *)
Lemma startup_after_help (w : world) :
  compiles env (helpPattern (conf (g w))) = true →
  startup env w =
    bind (deref (conf_Responders (conf (g w))))
         (λ responders, compilePassives env (Passive responders))
         (World (freshGlobals (normalisedConf (conf (g w))))
                (connMap w) (reads w)
                (trace w ++
                 [Log Debug "Help command:"; Log Debug "Config loaded:"])).
Proof.
  intros Hgood. unfold startup, normalisedConf, helpPattern in *. mrun.
  unfold regexp_Compile. unfold compiles in Hgood.
  destruct (decide (conf_Help (conf (g w)) = "")); simpl in *;
    destruct (regexpError env _); try discriminate;
    simpl; rewrite <- app_assoc; reflexivity.
Qed.


(** The marks the loop over the arguments computes, slot by slot. *)
Lemma scanArgs_marks (args : list string) :
  ∀ (i : nat) (substitute roomParam : gmap nat bool) (w : world),
    ∃ maps w',
      scanArgs i args substitute roomParam w = Ok maps w' ∧
      g w' = g w ∧ connMap w' = connMap w ∧
      ∀ k,
        maps.1 !! k =
          match (if decide (i ≤ k) then args !! (k - i) else None) with
          | Some arg =>
              if subRegex_MatchString arg then Some true else substitute !! k
          | None => substitute !! k
          end ∧
        maps.2 !! k =
          match (if decide (i ≤ k) then args !! (k - i) else None) with
          | Some arg =>
              if roomRegex_MatchString arg then Some true else roomParam !! k
          | None => roomParam !! k
          end.
Proof.
  induction args as [|arg rest IH]; intros i substitute roomParam w.
  - exists (substitute, roomParam), w. simpl. unfold ret.
    split_and!; try reflexivity.
    intros k. case_decide; split; reflexivity.
  - cbn [scanArgs].
    destruct (subRegex_MatchString arg) eqn:Hs0,
             (roomRegex_MatchString arg) eqn:Hr0; mrun;
      match goal with
      | |- context [scanArgs ?i' rest ?s ?r ?w0] =>
          destruct (IH i' s r w0) as (maps & w' & -> & Hg & Hm & Hmarks)
      end;
      exists maps, w'; simpl in *;
      (split_and!; [reflexivity|congruence|congruence|]);
      intros k; destruct (Hmarks k) as [Hs Hr]; rewrite Hs, Hr;
      (destruct (decide (k = i)) as [->|Hne];
       [rewrite decide_False by lia; rewrite decide_True by lia;
        rewrite Nat.sub_diag; simpl; rewrite ?Hs0, ?Hr0;
        rewrite ?lookup_insert_eq; auto
       |rewrite ?lookup_insert_ne by congruence;
        destruct (decide (S i ≤ k)) as [Hle|Hgt];
        [rewrite decide_True by lia;
         replace (k - i) with (S (k - S i)) by lia; simpl; auto
        |rewrite decide_False by lia; auto]]).
Qed.

Lemma compilePassive_marks (pr : passiveResponderConfig) (w : world) :
  passiveFault env pr = false →
  ∃ c w',
    compilePassive env pr w = Ok tt w' ∧
    argMarks c ∧
    prefixPResponders (g w') =
      prefixPResponders (g w) ++ (if pr_NoPrefix c then [] else [c]) ∧
    noPrefixPResponders (g w') =
      noPrefixPResponders (g w) ++ (if pr_NoPrefix c then [c] else []) ∧
    mentionPResponders (g w') =
      mentionPResponders (g w) ++ (if hasMention c then [c] else []).
Proof.
  intros Hok.
  apply passiveFault_false in Hok as (Hm & Hc & Hmc & Hcmd & Hh & Hhc).
  unfold compilePassive. mrun.
  rewrite decide_False by exact Hm. simpl.
  rewrite compilePatterns_ok by exact Hc. simpl.
  rewrite compilePatterns_ok by exact Hmc. simpl.
  rewrite decide_False by (rewrite length_fmap; exact Hm). simpl.
  rewrite decide_False by exact Hcmd. simpl.
  match goal with
  | |- context [scanArgs ?i ?a ?s ?r ?w0] =>
      destruct (scanArgs_marks a i s r w0)
        as (maps & w1 & -> & Hg1 & Hm1 & Hmarks)
  end.
  set (c := setCompiled pr (CompiledRegexp <$> pr_Match pr)
              (CompiledRegexp <$> pr_MentionMatch pr) maps.1 maps.2).
  exists c.
  rewrite (decide_False (P := pr_Help pr = "" ∨ length (pr_HelpCmds pr) = 0))
    by tauto.
  assert (Hmk : argMarks c).
  { intros k. destruct (Hmarks k) as [Hs Hr]. subst c. simpl.
    rewrite Hs, Hr. rewrite decide_True by lia. rewrite Nat.sub_0_r.
    rewrite !lookup_empty. split; reflexivity. }
  unfold hasMention. subst c. simpl in *.
  destruct (pr_NoPrefix pr), (pr_MentionMatch pr) as [|mp mps]; simpl;
    match goal with
    | |- context [pushHelpCmds ?l ?m ?a ?b ?w0] =>
        destruct (pushHelpCmds_ok l m a b w0)
          as (w2 & -> & Hp2 & Ha2 & Hc2 & Hm2 & Hh2)
    end;
    match goal with
    | |- context [pushHelpCmds ?l ?m ?a ?b ?w0] =>
        destruct (pushHelpCmds_ok l m a b w0)
          as (w3 & -> & Hp3 & Ha3 & Hc3 & Hm3 & Hh3)
    end;
    exists w3; (split; [reflexivity|]); (split; [exact Hmk|]);
    unfold passiveBuckets in Hp2, Hp3; simpl in *;
    rewrite Hg1 in *; simplify_eq;
    rewrite ?app_nil_r; split_and!; congruence.
Qed.

Lemma compilePassives_marks (prs : list passiveResponderConfig) :
  ∀ w w' : world,
    compilePassives env prs w = Ok tt w' →
    Forall argMarks (prefixPResponders (g w)) →
    Forall argMarks (noPrefixPResponders (g w)) →
    Forall argMarks (mentionPResponders (g w)) →
    Forall argMarks (prefixPResponders (g w')) ∧
    Forall argMarks (noPrefixPResponders (g w')) ∧
    Forall argMarks (mentionPResponders (g w')).
Proof.
  induction prs as [|pr rest IH]; intros w w' Hrun Hp Hn Hm; simpl in Hrun.
  - injection Hrun as <-. auto.
  - unfold bind in Hrun.
    destruct (passiveFault env pr) eqn:Hfault.
    + destruct (compilePassive_fatal env pr w Hfault) as (w1 & Hhalt).
      rewrite Hhalt in Hrun. discriminate.
    + destruct (compilePassive_marks pr w Hfault)
        as (c & w1 & Hok & Hmk & Hp1 & Hn1 & Hm1).
      rewrite Hok in Hrun.
      assert (Hone : Forall argMarks [c]).
      { apply Forall_cons. split; [exact Hmk|apply Forall_nil_2]. }
      apply (IH w1 w' Hrun).
      * rewrite Hp1. apply Forall_app. split; [exact Hp|].
        destruct (pr_NoPrefix c); first [exact Hone|apply Forall_nil_2].
      * rewrite Hn1. apply Forall_app. split; [exact Hn|].
        destruct (pr_NoPrefix c); first [exact Hone|apply Forall_nil_2].
      * rewrite Hm1. apply Forall_app. split; [exact Hm|].
        destruct (hasMention c); first [exact Hone|apply Forall_nil_2].
Qed.

(** X21: the substitution marks after a completed start-up.  For every
    passive responder on the prefix, no-prefix and mention lists, slot
    [k] of [substitute] is set exactly when argument [k] of its template
    contains a capture marker, slot [k] of [roomParam] exactly when it
    contains the room marker; slots are only ever set to true, and no
    slot beyond the template is set. *)
Theorem startup_marks_arguments (w w' : world) :
  startup env w = Ok tt w' →
  Forall argMarks (prefixPResponders (g w')) ∧
  Forall argMarks (noPrefixPResponders (g w')) ∧
  Forall argMarks (mentionPResponders (g w')).
Proof.
  intros Hrun.
  pose proof (startup_ok_no_fault w w' Hrun) as Hfault.
  unfold startupFault in Hfault.
  apply orb_false_iff in Hfault as [Hhelp _].
  apply negb_false_iff in Hhelp.
  rewrite (startup_after_help w Hhelp) in Hrun.
  destruct (conf_Responders (conf (g w))) as [responders|]; mrun;
    [|discriminate].
  apply (compilePassives_marks _ _ _ Hrun); simpl; apply Forall_nil_2.
Qed.

End StartupMore.

(** ** The defaults before listening *)

Lemma trimLeft_spec (cs : list ascii) :
  ∃ n, cs = replicate n " "%char ++ trimLeft cs ∧
       match trimLeft cs with
       | [] => True
       | c :: _ => isSpace c = false
       end.
Proof.
  induction cs as [|c cs IH]; simpl.
  - exists 0. auto.
  - destruct (isSpace c) eqn:Hc.
    + destruct IH as (n & Heq & Hhead). exists (S n). split; [|exact Hhead].
      apply Ascii.eqb_eq in Hc as ->. simpl. congruence.
    + exists 0. simpl. rewrite Hc. auto.
Qed.

Lemma trimLeft_fixed (cs : list ascii) :
  match cs with [] => True | c :: _ => isSpace c = false end →
  trimLeft cs = cs.
Proof. destruct cs as [|c cs]; simpl; [reflexivity|]. intros ->. reflexivity. Qed.

Lemma rev_replicate {A} (n : nat) (x : A) :
  rev (replicate n x) = replicate n x.
Proof.
  induction n as [|n IH]; [reflexivity|].
  simpl. rewrite IH. clear IH.
  induction n as [|n IH]; [reflexivity|]. simpl. rewrite IH. reflexivity.
Qed.

Lemma trimLeft_last (cs : list ascii) (c : ascii) :
  isSpace c = false →
  ∃ t n,
    cs = replicate n " "%char ++ t ∧
    trimLeft (cs ++ [c]) = t ++ [c] ∧
    match t ++ [c] with [] => True | a :: _ => isSpace a = false end.
Proof.
  intros Hc. induction cs as [|a cs IH]; simpl.
  - rewrite Hc. exists [], 0. simpl. auto.
  - destruct (isSpace a) eqn:Ha.
    + destruct IH as (t & n & Hn & Heq & Hfix).
      exists t, (S n). split_and!; auto.
      apply Ascii.eqb_eq in Ha as ->. simpl. congruence.
    + exists (a :: cs), 0. simpl. auto.
Qed.

(** What trimming does: it removes a run of spaces at each end and
    nothing else, and what is left neither starts nor ends with a
    space. *)
Lemma trimSpaces_spec (cs : list ascii) :
  ∃ n m,
    cs = replicate n " "%char ++ trimSpaces cs ++ replicate m " "%char ∧
    match trimSpaces cs with [] => True | a :: _ => isSpace a = false end ∧
    match rev (trimSpaces cs) with [] => True | a :: _ => isSpace a = false end.
Proof.
  unfold trimSpaces.
  destruct (trimLeft_spec cs) as (n & Hn & Hhead).
  destruct (trimLeft cs) as [|c body] eqn:Hbody.
  - exists n, 0. simpl. split_and!; [exact Hn|exact I..].
  - destruct (trimLeft_last (rev body) c Hhead) as (t & m & Hm & Ht & Hfix).
    cbn [rev]. rewrite Ht.
    exists n, m. rewrite rev_involutive, rev_app_distr. cbn [rev app].
    split_and!.
    + rewrite Hn. do 2 f_equal.
      apply (f_equal (@rev ascii)) in Hm.
      rewrite rev_involutive, rev_app_distr, rev_replicate in Hm.
      exact Hm.
    + exact Hhead.
    + exact Hfix.
Qed.

Lemma trimSpaces_fixed (cs : list ascii) :
  match cs with [] => True | a :: _ => isSpace a = false end →
  match rev cs with [] => True | a :: _ => isSpace a = false end →
  trimSpaces cs = cs.
Proof.
  intros Hhead Hlast. unfold trimSpaces.
  rewrite (trimLeft_fixed cs Hhead), (trimLeft_fixed (rev cs) Hlast).
  apply rev_involutive.
Qed.

Lemma trimSpaces_snoc_space (cs : list ascii) :
  cs ≠ [] →
  match cs with [] => True | a :: _ => isSpace a = false end →
  match rev cs with [] => True | a :: _ => isSpace a = false end →
  trimSpaces (cs ++ [" "%char]) = cs.
Proof.
  intros Hne Hhead Hlast. unfold trimSpaces.
  rewrite (trimLeft_fixed (cs ++ [" "%char])).
  - rewrite rev_app_distr. simpl.
    rewrite (trimLeft_fixed (rev cs) Hlast). apply rev_involutive.
  - destruct cs; [contradiction|exact Hhead].
Qed.

Lemma head_rev {A} (l : list A) : head (rev l) = last l.
Proof.
  destruct l as [|x l] using rev_ind; [reflexivity|].
  rewrite rev_app_distr, last_snoc. reflexivity.
Qed.

Lemma head_not_space (cs : list ascii) :
  match cs with [] => True | a :: _ => isSpace a = false end →
  head cs ≠ Some " "%char.
Proof.
  destruct cs as [|a cs]; simpl; [discriminate|].
  intros Ha [= ->]. discriminate Ha.
Qed.

(** X23: the command prefix [main] settles.  Whatever prefix was parsed,
    the settled prefix is a non-empty body followed by exactly one
    space, and [prefixLen] is its length; the body is the parsed prefix
    without the spaces at its two ends (nothing else is removed), or
    [pris] when nothing is left; the body neither starts nor ends with a
    space.  The port is the parsed one, or 4517 when it was 0.  Settling
    the settled values again changes nothing and logs nothing. *)
Theorem main_settles_prefix (port : Z) (prefix : string) :
  let lc := (mainDefaults port prefix).2 in
  ∃ body,
    lc_Prefix lc = body +:+ " " ∧
    body ≠ "" ∧
    outerSpaceFree body ∧
    body = (if decide (strings_Trim_space prefix = "") then "pris"
            else strings_Trim_space prefix) ∧
    (∃ n m, prefix = spaces n +:+ strings_Trim_space prefix +:+ spaces m) ∧
    lc_prefixLen lc = S (String.length body) ∧
    lc_Port lc = (if decide (port = 0%Z) then 4517%Z else port) ∧
    mainDefaults (lc_Port lc) (lc_Prefix lc) = ([], lc).
Proof.
  intros lc. subst lc.
  destruct (trimSpaces_spec (String.list_ascii_of_string prefix))
    as (n & m & Hsplit & Hhead & Hlast).
  set (tl := trimSpaces (String.list_ascii_of_string prefix)) in *.
  assert (Htrim : strings_Trim_space prefix = String.string_of_list_ascii tl)
    by reflexivity.
  set (bl := match tl with [] => String.list_ascii_of_string "pris" | _ => tl end).
  assert (Hbl : bl ≠ [] ∧
                match bl with [] => True | a :: _ => isSpace a = false end ∧
                match rev bl with [] => True | a :: _ => isSpace a = false end).
  { subst bl. destruct tl.
    - vm_compute. split_and!; [discriminate|reflexivity..].
    - split_and!; auto. }
  destruct Hbl as (Hbne & Hbhead & Hblast).
  assert (Hbody : (if decide (strings_Trim_space prefix = "") then "pris"
                   else strings_Trim_space prefix)
                  = String.string_of_list_ascii bl).
  { rewrite Htrim. subst bl. destruct tl; reflexivity. }
  assert (Hlen : ∀ cs, String.length (String.string_of_list_ascii cs) < 1
                       ↔ cs = []).
  { intros cs. rewrite string_of_list_ascii_length.
    destruct cs; simpl; split; intros; try lia; congruence. }
  assert (Hprefix : ∀ p, (mainDefaults p prefix).2 =
            ListenConf (if decide (p = 0%Z) then 4517%Z else p)
              (String.string_of_list_ascii bl +:+ " ")
              (String.length (String.string_of_list_ascii bl +:+ " "))).
  { intros p. unfold mainDefaults. rewrite Htrim. subst bl.
    destruct (decide (p = 0%Z)); destruct tl; reflexivity. }
  exists (String.string_of_list_ascii bl). rewrite Hprefix. simpl.
  assert (Happ : String.string_of_list_ascii bl +:+ " "
                 = String.string_of_list_ascii (bl ++ [" "%char])).
  { rewrite string_of_list_ascii_app. reflexivity. }
  split_and!.
  - reflexivity.
  - intros Hempty. apply Hbne.
    apply (f_equal String.list_ascii_of_string) in Hempty.
    rewrite String.list_ascii_of_string_of_list_ascii in Hempty. exact Hempty.
  - unfold outerSpaceFree.
    rewrite String.list_ascii_of_string_of_list_ascii. split.
    + apply head_not_space. exact Hbhead.
    + rewrite <- head_rev. apply head_not_space. exact Hblast.
  - symmetry. exact Hbody.
  - exists n, m. rewrite Htrim. unfold spaces.
    rewrite <- !string_of_list_ascii_app, <- Hsplit.
    symmetry. apply String.string_of_list_ascii_of_string.
  - rewrite Happ, !string_of_list_ascii_length, length_app. simpl. lia.
  - reflexivity.
  - unfold mainDefaults.
    rewrite decide_False by (destruct (decide (port = 0%Z)); [discriminate|assumption]).
    rewrite Happ. unfold strings_Trim_space.
    rewrite String.list_ascii_of_string_of_list_ascii.
    rewrite (trimSpaces_snoc_space bl Hbne Hbhead Hblast).
    rewrite decide_False.
    2:{ rewrite Hlen. exact Hbne. }
    rewrite <- Happ. reflexivity.
Qed.

(** ** The theorems at concrete inputs *)

(** A first engagement asking for the id [bob], which is taken: a
    generated id is installed for encoder 7, sent on channel 1 and
    announced in a [proceed] command; [bob] keeps its entry. *)
Lemma engage_accepted_at_sample :
  ∃ id w' warn,
    dispatch sampleEnv 1 (engageRequest "bob" 1) bobWorld = Ok Continue w' ∧
    is16LowerHex id = true ∧
    connMap w' = <[id := 7]> (connMap bobWorld) ∧
    connMap w' !! "bob" = Some 7 ∧
    trace w' = trace bobWorld ++ warn ++
      [Log Info "Engagement accepted: "; ChanSend 1 id; ChanClose 1;
       Encode 7 (proceedQuery id)].
Proof.
  destruct (engage_accepted sampleEnv 1 (engageRequest "bob" 1)
              (CommandBlock "" "engage" "adapter" "s3cret" [] []) 7 1
              bobWorld 0)
    as (id & w' & warn & Hrun & _ & _ & Hhex & Hmap & Hkeep & _ & Htr & _);
    first [reflexivity | lia | idtac].
  exists id, w', warn. split_and!; try assumption.
  - apply Hhex. right. exists 7. reflexivity.
  - apply Hkeep. reflexivity.
Defined.

(** After its handshake the adapter engaged as [bob] sends the same
    [engage] envelope again: [serve] hands it to the dispatcher without
    a reply channel. *)
Lemma serve_submits_reengage :
  serveBody sampleEnv 7 1 "bob" (ConnState "bob" true)
            (Decoded (engageQuery "bob" "s3cret"))
  = ServeStep [Submit (reengageRequest "s3cret")] Continue
              (ConnState "bob" true).
Proof. reflexivity. Qed.

(** The adapter engaged as [bob] sends [engage] again with the right
    credential: a second id is installed and the dispatcher blocks. *)
Lemma engage_accepted_without_reply_channel_witness :
  ∃ id w' warn,
    dispatch sampleEnv 1 (reengageRequest "s3cret") bobWorld
      = Halted Blocked w' ∧
    connMap bobWorld !! id = None ∧
    connMap w' = <[id := 7]> (connMap bobWorld) ∧
    trace w' = trace bobWorld ++ warn ++ [Log Info "Engagement accepted: "] ∧
    Forall (λ ev, ∃ text, ev = Log Warn text) warn ∧
    existsb isEncode (trace w') = existsb isEncode (trace bobWorld).
Proof.
  apply (engage_accepted_without_reply_channel sampleEnv 1
           (reengageRequest "s3cret")
           (CommandBlock "" "engage" "adapter" "s3cret" [] []) 7 bobWorld 0);
    first [reflexivity | lia].
Defined.

Lemma engage_rejected_without_reply_channel_witness :
  ∃ w',
    dispatch sampleEnv 1 (reengageRequest "guess") bobWorld
      = Halted Blocked w' ∧
    connMap w' = connMap bobWorld ∧
    g w' = g bobWorld ∧
    trace w' = trace bobWorld ++ [Log Error "Invalid engagement request"].
Proof.
  apply (engage_rejected_without_reply_channel sampleEnv 1
           (reengageRequest "guess")
           (CommandBlock "" "engage" "adapter" "guess" [] []) 7 bobWorld
           "invalid credential");
    reflexivity.
Defined.


Lemma register_accepted_witness :
  ∃ w' ar,
    dispatch sampleEnv 0 (registerRequest "noprefix" "^ping$") bobWorld
      = Ok Continue w' ∧
    ar_source ar = "bob" ∧
    ar_matchNext ar = true ∧
    activeBuckets (g w') = [[]; [ar]; []; []] ∧
    help (g w') = [HelpInfo "ping" "replies pong" true false].
Proof.
  destruct (register_accepted sampleEnv 0 (registerRequest "noprefix" "^ping$")
              (registerCommand "noprefix" "^ping$") "ping" "replies pong" []
              1 bobWorld)
    as (w' & ar & Hrun & _ & Hsrc & _ & _ & _ & Hnext & Hact & Hhelp & _);
    try reflexivity.
  exists w', ar. split_and!; try assumption.
  apply Hnext. apply list_elem_of_here.
Defined.

(** C3, as stated, fails for the classification [unhandled]: the command
    passes validation and its pattern compiles, the responder lands in
    the unhandled bucket, and no help entry is appended. *)
Lemma register_unhandled_appends_no_help :
  validate sampleEnv (Query (registerRequest "unhandled" "^ping$")) = None ∧
  registerChk sampleEnv (registerCommand "unhandled" "^ping$") = None ∧
  regexpError sampleEnv "^ping$" = None ∧
  ∃ w',
    dispatch sampleEnv 0 (registerRequest "unhandled" "^ping$") bobWorld
      = Ok Continue w' ∧
    length (unhandledAResponders (g w')) = 1 ∧
    ¬ ∃ entry, help (g w') = help (g bobWorld) ++ [entry].
Proof.
  split_and!; try reflexivity.
  eexists. split; [vm_compute; reflexivity|]. split; [reflexivity|].
  intros [entry Hentry]. discriminate Hentry.
Qed.

Lemma message_forwarded_or_dropped_witness :
  ∃ w',
    dispatch sampleEnv 0 (messageRequest "bob") bobWorld = Ok Continue w' ∧
    g w' = g bobWorld ∧ connMap w' = connMap bobWorld ∧
    trace w' =
      [Log Debug "Responder message received:"; Log Debug "Query source:";
       Encode 7 (Query (messageRequest "bob"))].
Proof.
  apply (message_forwarded_or_dropped sampleEnv 0 (messageRequest "bob")
           sampleMessage bobWorld); first [reflexivity | discriminate].
Defined.

Lemma register_bad_pattern_dropped_witness :
  ∃ w',
    dispatch sampleEnv 0 (registerRequest "prefix" "(") bobWorld
      = Ok Continue w' ∧
    g w' = g bobWorld ∧ connMap w' = connMap bobWorld ∧
    trace w' =
      [Log Debug "Register command received:";
       Log Error "Error compiling regex:"].
Proof.
  apply (register_bad_pattern_dropped sampleEnv 0 (registerRequest "prefix" "(")
           (registerCommand "prefix" "(") "missing closing )" bobWorld);
    reflexivity.
Defined.

Lemma responders_bucket_membership_witness :
  (∃ cs,
     Forall2 compiledFrom [samplePassive ["^hello"] ["ping"]] cs ∧
     prefixPResponders (g (endWorld (startup sampleEnv (initialWorld mentionConf))
                                    sampleWorld))
       = List.filter (λ c, negb (pr_NoPrefix c)) cs) ∧
  (∃ w' ar,
     dispatch sampleEnv 0 (registerRequest "mention" "^ping$") bobWorld
       = Ok Continue w' ∧
     activeBuckets (g w') = [[]; []; [ar]; []]).
Proof.
  destruct (responders_bucket_membership sampleEnv) as [Hpassive Hactive].
  split.
  - destruct (Hpassive (initialWorld mentionConf)
                (endWorld (startup sampleEnv (initialWorld mentionConf))
                          sampleWorld)
                (ResponderConfig [samplePassive ["^hello"] ["ping"]]))
      as (cs & Hcf & Hp & _); [reflexivity|vm_compute; reflexivity|].
    exists cs. split; assumption.
  - destruct (Hactive 0 (registerRequest "mention" "^ping$")
                (registerCommand "mention" "^ping$") "ping" "replies pong" []
                2 bobWorld)
      as (w' & ar & Hrun & _ & _ & Hact & _); try reflexivity.
    exists w', ar. split; assumption.
Defined.

(** C7, as stated, fails for a passive responder with mention patterns:
    start-up completes and the responder is on the prefix list and on
    the mention list. *)
Lemma passive_responder_in_two_buckets :
  ∃ w' c,
    startup sampleEnv (initialWorld mentionConf) = Ok tt w' ∧
    prefixPResponders (g w') = [c] ∧
    mentionPResponders (g w') = [c].
Proof.
  eexists _, _. split; [vm_compute; reflexivity|].
  split; reflexivity.
Qed.


Lemma dispatcher_never_leaves_loop_witness :
  match dispatcher sampleEnv 2 sampleRequests sampleWorld with
  | Ok r w' => r = AwaitingRequest ∧ mainAfterStart (trace w') = None
  | Halted _ w' => mainAfterStart (trace w') = None
  | OutOfFuel => True
  end.
Proof.
  apply (dispatcher_never_leaves_loop sampleEnv 2 sampleRequests sampleWorld).
  reflexivity.
Defined.

Lemma generated_ids_and_table_keys_nonempty_witness :
  let w' := endWorld (dispatcher sampleEnv 2 sampleRequests sampleWorld)
                     sampleWorld in
  is16LowerHex (generateId [x0a; xff]%byte) = true ∧
  generateId [x0a; xff]%byte ≠ "" ∧
  connMap w' !! "" = None ∧
  (∀ id, is_Some (connMap w' !! id) → id ≠ "").
Proof.
  intros w'.
  apply (generated_ids_and_table_keys_nonempty sampleEnv 2 sampleRequests
           sampleWorld w' [x0a; xff]%byte).
  vm_compute. reflexivity.
Defined.

(** ** The further theorems at concrete inputs *)

Lemma generateId_short_read_witness :
  generateId [x0a; xff]%byte = "0aff000000000000".
Proof.
  destruct (generateId_short_read [x0a; xff]%byte) as [Hid _];
    [simpl; lia|].
  exact Hid.
Defined.

Lemma dispatcher_registries_append_only_witness :
  let w' := endWorld (dispatcher sampleEnv 2 sampleRequests sampleWorld)
                     sampleWorld in
  registriesGrow (g sampleWorld) (g w') ∧
  trace sampleWorld `prefix_of` trace w'.
Proof.
  intros w'.
  apply (dispatcher_registries_append_only sampleEnv 2 sampleRequests
           sampleWorld w').
  vm_compute. reflexivity.
Defined.

Lemma table_changes_only_on_engage_disengage_witness :
  connMap (endWorld (dispatcher sampleEnv 0 tableQuietRequests sampleWorld)
                    sampleWorld) = ∅.
Proof.
  apply (table_changes_only_on_engage_disengage sampleEnv 0
           tableQuietRequests sampleWorld).
  - vm_compute. reflexivity.
  - repeat constructor.
Defined.

Lemma registries_change_only_on_register_witness :
  g (endWorld (dispatcher sampleEnv 1 registryQuietRequests sampleWorld)
              sampleWorld) = g sampleWorld.
Proof.
  apply (registries_change_only_on_register sampleEnv 1
           registryQuietRequests sampleWorld).
  - vm_compute. reflexivity.
  - repeat constructor.
Defined.

Lemma disengage_removes_entry_witness :
  ∃ w',
    dispatch sampleEnv 0 (disengageRequest "bob") bobWorld = Ok Continue w' ∧
    connMap w' !! "bob" = None.
Proof.
  destruct (disengage_removes_entry sampleEnv 0 (disengageRequest "bob")
              (CommandBlock "" "disengage" "" "" [] []) bobWorld)
    as (w' & Hrun & _ & _ & Hgone & _); try reflexivity.
  exists w'. split; [exact Hrun|]. apply Hgone. discriminate.
Defined.

Lemma engage_grows_table_by_one_witness :
  ∃ id w',
    dispatch sampleEnv 1 (engageRequest "bob" 1) bobWorld = Ok Continue w' ∧
    ChanSend 1 id ∈ trace w' ∧
    (id ∉ dom (connMap bobWorld)) ∧
    dom (connMap w') = {[id]} ∪ dom (connMap bobWorld) ∧
    size (connMap w') = S (size (connMap bobWorld)).
Proof.
  apply (engage_grows_table_by_one sampleEnv 1 (engageRequest "bob" 1)
           (CommandBlock "" "engage" "adapter" "s3cret" [] []) 7 1
           bobWorld 0);
    first [reflexivity | lia].
Defined.

Lemma engage_then_disengage_restores_table_witness :
  ∃ id w1 w2,
    dispatch sampleEnv 1 (engageRequest "bob" 1) bobWorld = Ok Continue w1 ∧
    connMap w1 !! id = Some 7 ∧
    dispatch sampleEnv 1 (disengageRequest id) w1 = Ok Continue w2 ∧
    connMap w2 = connMap bobWorld.
Proof.
  destruct (engage_then_disengage_restores_table sampleEnv 1
              (engageRequest "bob" 1)
              (CommandBlock "" "engage" "adapter" "s3cret" [] []) 7 1
              bobWorld 0)
    as (id & w1 & Hrun & Hin & Hbye); first [reflexivity | lia | idtac].
  destruct (Hbye (disengageRequest id)
              (CommandBlock "" "disengage" "" "" [] []))
    as (w2 & Hrun2 & Hback); try reflexivity.
  exists id, w1, w2. split_and!; assumption.
Defined.

Lemma engage_never_completes_when_ids_exhausted_witness :
  dispatch silentReaderEnv 5 (engageRequest "" 1) zeroWorld = OutOfFuel.
Proof.
  apply (engage_never_completes_when_ids_exhausted silentReaderEnv 5
           (engageRequest "" 1)
           (CommandBlock "" "engage" "adapter" "s3cret" [] []) 7 zeroWorld);
    try reflexivity.
  - left. reflexivity.
  - intros n _. exists 7. reflexivity.
Defined.

Lemma dispatch_writes_only_replies_and_routed_messages_witness :
  let w' := endWorld (dispatch sampleEnv 0 (messageRequest "bob") bobWorld)
                     bobWorld in
  ∃ evs,
    trace w' = trace bobWorld ++ evs ∧
    ∀ (e : encoder) (q' : query),
      Encode e q' ∈ evs →
      (isCommandWith "engage" (Query (messageRequest "bob")) = true ∧
       Encoder (messageRequest "bob") = Some e ∧ q_Source q' = "server") ∨
      (q_Type (Query (messageRequest "bob")) = "message" ∧
       connMap bobWorld !! q_To (Query (messageRequest "bob")) = Some e ∧
       q' = Query (messageRequest "bob")).
Proof.
  intros w'.
  apply (dispatch_writes_only_replies_and_routed_messages sampleEnv 0
           (messageRequest "bob") bobWorld w').
  vm_compute. reflexivity.
Defined.

Lemma same_id_requested_twice_witness :
  ∃ w1 id2 w2,
    dispatch sampleEnv 1 (engageRequest "bob" 1) sampleWorld
      = Ok Continue w1 ∧
    ChanSend 1 "bob" ∈ trace w1 ∧
    Encode 7 (proceedQuery "bob") ∈ trace w1 ∧
    dispatch sampleEnv 1 secondEngageRequest w1 = Ok Continue w2 ∧
    ChanSend 2 id2 ∈ trace w2 ∧
    Encode 8 (proceedQuery id2) ∈ trace w2 ∧
    id2 ≠ "bob" ∧
    is16LowerHex id2 = true ∧
    connMap w2 !! "bob" = Some 7 ∧
    connMap w2 !! id2 = Some 8.
Proof.
  apply (same_id_requested_twice sampleEnv 1 (engageRequest "bob" 1)
           secondEngageRequest
           (CommandBlock "" "engage" "adapter" "s3cret" [] [])
           (CommandBlock "" "engage" "adapter" "s3cret" [] [])
           7 8 1 2 "bob" sampleWorld 0);
    first [reflexivity | discriminate | lia].
Defined.

Lemma dispatch_hands_off_only_unrecognised_work_witness :
  let w' := endWorld (dispatch sampleEnv 0 forwardedAdapterMessage bobWorld)
                     bobWorld in
  ∃ evs,
    trace w' = trace bobWorld ++ evs ∧
    length (List.filter isHandOff evs) ≤ 1 ∧
    (∀ cmd source,
       GoHandleCommand cmd source ∈ evs →
       validate sampleEnv (Query forwardedAdapterMessage) = None ∧
       q_Type (Query forwardedAdapterMessage) = "command" ∧
       q_Command (Query forwardedAdapterMessage) = Some cmd ∧
       source = q_Source (Query forwardedAdapterMessage) ∧
       cmd_Action cmd ∉ ["engage"; "disengage"; "register"]) ∧
    (∀ msg source,
       GoHandleMessage msg source ∈ evs →
       validate sampleEnv (Query forwardedAdapterMessage) = None ∧
       q_Type (Query forwardedAdapterMessage) = "message" ∧
       q_Message (Query forwardedAdapterMessage) = Some msg ∧
       source = q_Source (Query forwardedAdapterMessage) ∧
       (q_To (Query forwardedAdapterMessage) = "" ∨
        q_To (Query forwardedAdapterMessage) = "server")).
Proof.
  intros w'.
  apply (dispatch_hands_off_only_unrecognised_work sampleEnv 0
           forwardedAdapterMessage bobWorld w').
  vm_compute. reflexivity.
Defined.

Lemma engage_rejected_witness :
  ∃ w',
    dispatch sampleEnv 1 rejectedEngageRequest bobWorld = Ok Continue w' ∧
    connMap w' = connMap bobWorld ∧
    g w' = g bobWorld ∧
    trace w' = trace bobWorld ++
      [Log Error "Invalid engagement request"; ChanSend 1 ""; ChanClose 1;
       Encode 7 (terminateQuery "bob" "invalid credential")].
Proof.
  apply (engage_rejected sampleEnv 1 rejectedEngageRequest
           (CommandBlock "" "engage" "adapter" "guess" [] []) 7 1 bobWorld
           "invalid credential");
    reflexivity.
Defined.

Lemma serve_handshake_sets_isAdapter_witness :
  let st := ConnState "bob" true in
  sv_id st = "bob" ∧ "bob" ≠ "" ∧
  (sv_isAdapter st = true ↔ "adapter" = "adapter").
Proof.
  intros st.
  apply (serve_handshake_sets_isAdapter sampleEnv 7 1 "bob"
           (engageQuery "bob" "s3cret")
           (CommandBlock "" "engage" "adapter" "s3cret" [] [])
           [Submit (engageRequest "bob" 1);
            SLog Debug "Connection successfully engaged"] st);
    reflexivity.
Defined.

Lemma serve_submissions_witness :
  serveSubmission sampleEnv 7 1 "bob" sampleStream forwardedAdapterMessage ∧
  (∀ st, (serve sampleEnv 7 1 "bob" sampleStream).2 = Some st →
         sv_id st = "" ∨ (sv_id st = "bob" ∧ "bob" ≠ "")).
Proof.
  apply (serve_submissions sampleEnv 7 1 "bob" sampleStream
           forwardedAdapterMessage).
  apply list_elem_of_In. vm_compute. right. left. reflexivity.
Defined.

Lemma failed_handshake_closes_connection_witness :
  ∃ evs,
    serveBody sampleEnv 7 1 "" (ConnState "" false)
              (Decoded (engageQuery "bob" "s3cret"))
      = ServeStep (evs ++ [SLog Error "Failed to engage:"; ConnClose])
                  Break (ConnState "" false) ∧
    submittedOf evs =
      match checkEngagement sampleEnv (engageQuery "bob" "s3cret") with
      | None => [DispatcherRequest (engageQuery "bob" "s3cret")
                   (Some 7) (Some 1)]
      | Some _ => []
      end ∧
    ∀ rest,
      serveLoop sampleEnv 7 1 "" (ConnState "" false)
                (Decoded (engageQuery "bob" "s3cret") :: rest)
        = (evs ++ [SLog Error "Failed to engage:"; ConnClose],
           Some (ConnState "" false)).
Proof.
  apply (failed_handshake_closes_connection sampleEnv 7 1 ""
           (ConnState "" false) (engageQuery "bob" "s3cret")).
  - reflexivity.
  - right. reflexivity.
Defined.

Lemma adapter_message_reaches_matching_witness :
  ∃ req,
    serveBody sampleEnv 7 1 "bob" (ConnState "bob" true)
              (Decoded adapterMessage)
      = ServeStep [Submit req] Continue (ConnState "bob" true) ∧
    q_Source (Query req) = "bob" ∧
    q_To (Query req) = "" ∧
    ∀ (fuel : nat) (w : world),
      ∃ w',
        dispatch sampleEnv fuel req w = Ok Continue w' ∧
        g w' = g w ∧ connMap w' = connMap w ∧
        trace w' = trace w ++
          [Log Debug "Adapter message received:";
           GoHandleMessage sampleMessage "bob"].
Proof.
  apply (adapter_message_reaches_matching sampleEnv 7 1 "bob"
           (ConnState "bob" true) adapterMessage sampleMessage);
    first [reflexivity | discriminate].
Defined.

Lemma responder_message_delivered_witness :
  ∃ req,
    serveBody sampleEnv 8 1 "resp" (ConnState "resp" false)
              (Decoded responderReply)
      = ServeStep [Submit req] Continue (ConnState "resp" false) ∧
    Query req = setSource responderReply "resp" ∧
    ∀ (fuel : nat) (w : world),
      ∃ w',
        dispatch sampleEnv fuel req w = Ok Continue w' ∧
        g w' = g w ∧ connMap w' = connMap w ∧
        trace w' = trace w ++
          [Log Debug "Responder message received:";
           Log Debug "Query source:";
           match connMap w !! "bob" with
           | Some dest => Encode dest (setSource responderReply "resp")
           | None => Log Error "Cannot find adapter source for"
           end].
Proof.
  apply (responder_message_delivered sampleEnv 8 1 "resp"
           (ConnState "resp" false) responderReply sampleMessage);
    first [reflexivity | discriminate].
Defined.

Lemma end_of_stream_disengages_witness :
  ∃ evs req,
    serveBody sampleEnv 7 1 "bob" (ConnState "bob" true) DecodeEOF
      = ServeStep evs Break (ConnState "bob" true) ∧
    submittedOf evs = [req] ∧
    ∀ (fuel : nat) (w : world),
      ∃ w',
        dispatch sampleEnv fuel req w = Ok Continue w' ∧
        g w' = g w ∧
        connMap w' = delete "bob" (connMap w) ∧
        ("bob" ≠ "" → connMap w' !! "bob" = None).
Proof.
  apply (end_of_stream_disengages sampleEnv 7 1 "bob" (ConnState "bob" true)).
  reflexivity.
Defined.


Lemma startup_builds_help_index_witness :
  let w' := endWorld (startup sampleEnv (initialWorld mentionConf))
                     sampleWorld in
  help (g w') = concat (helpOf <$> [samplePassive ["^hello"] ["ping"]]) ∧
  (∀ h, h ∈ help (g w') →
        hi_helpMsg h ≠ "" ∧ (hi_noPrefix h && hi_mention h = false)) ∧
  activeBuckets (g w') = [[]; []; []; []].
Proof.
  intros w'.
  apply (startup_builds_help_index sampleEnv (initialWorld mentionConf) w'
           (ResponderConfig [samplePassive ["^hello"] ["ping"]]));
    [reflexivity | vm_compute; reflexivity].
Defined.

Lemma startup_without_responders_panics_witness :
  ∃ w',
    startup sampleEnv (initialWorld noRespondersConf) = Halted Panic w' ∧
    trace w' = trace (initialWorld noRespondersConf) ++
      [Log Debug "Help command:"; Log Debug "Config loaded:"].
Proof.
  apply (startup_without_responders_panics sampleEnv
           (initialWorld noRespondersConf));
    reflexivity.
Defined.


Lemma startup_marks_arguments_witness :
  let w' := endWorld (startup sampleEnv (initialWorld mentionConf))
                     sampleWorld in
  Forall argMarks (prefixPResponders (g w')) ∧
  Forall argMarks (noPrefixPResponders (g w')) ∧
  Forall argMarks (mentionPResponders (g w')).
Proof.
  intros w'.
  apply (startup_marks_arguments sampleEnv (initialWorld mentionConf) w').
  vm_compute. reflexivity.
Defined.
